(** * aws-assume-role: a shallow embedding of [main.go]

    The program parses its flags, asks STS for temporary credentials,
    builds the environment of a child process and runs the child.  The
    development follows [main.go] top to bottom: the library calls it makes
    ([strings.Cut], [strconv.FormatInt], [time.Duration.Seconds], the
    conversion [int32(float64)]), the generic helper [ptr], the loop over
    [os.Environ()], and [main] itself as a computation that records the
    observable events of a run and ends with an exit status. *)

From Stdlib Require Import ZArith List Bool Ascii String Lia.
From Stdlib Require Import DecimalString.
From Stdlib Require Import SpecFloat.
Import ListNotations.

Local Open Scope string_scope.
Local Open Scope list_scope.
Local Open Scope Z_scope.

(** ** Strings

    A Go string is a sequence of bytes; [String.string] is a list of 8-bit
    characters. *)

Module strings.

(** [strings.Cut(s, sep)]: slices [s] around the first instance of [sep],
    returning the text before and after it and whether [sep] was found;
    when it is not found the result is [s, "", false]. *)
Fixpoint Cut (s sep : string) : string * string * bool :=
  if String.prefix sep s then
    (EmptyString, String.substring (String.length sep) (String.length s) s, true)
  else
    match s with
    | EmptyString => (s, EmptyString, false)
    | String c s' =>
        let '(before, after, found) := Cut s' sep in
        if found then (String c before, after, true)
        else (s, EmptyString, false)
    end.

(** [strings.Contains(s, sep)] for a one-byte [sep]: some byte of [s]
    is [c]. *)
Fixpoint ContainsByte (s : string) (c : ascii) : bool :=
  match s with
  | EmptyString => false
  | String c' s' => Ascii.eqb c' c || ContainsByte s' c
  end.

End strings.

Module syscall.

(** [env map[string]int]: the keys seen so far, each with the index of its
    first occurrence; [seen env key] is the lookup [_, ok := env[key]]. *)
Definition seen (env : list (string * nat)) (key : string) : bool :=
  existsb (fun kv => String.eqb (fst kv) key) env.

(** [copyenv()] (Unix), from index [i] on: for each entry of [envs] that
    contains ['='], the text before the first ['='] is its key; the first
    entry of a key is recorded in [env], a later entry of the same key is
    cleared ([envs[i] = ""]).  Entries without ['='] are left alone.
    Returns the map and the updated [envs]. *)
Fixpoint copyenv (i : nat) (env : list (string * nat)) (envs : list string)
  : list (string * nat) * list string :=
  match envs with
  | [] => (env, [])
  | s :: rest =>
      let '(key, _, found) := strings.Cut s "=" in
      if found then
        if seen env key then
          let '(env', rest') := copyenv (S i) env rest in
          (env', EmptyString :: rest')
        else
          let '(env', rest') := copyenv (S i) ((key, i) :: env) rest in
          (env', s :: rest')
      else
        let '(env', rest') := copyenv (S i) env rest in
        (env', s :: rest')
  end.

(** [syscall.Environ()], which [os.Environ()] returns: the entries of the
    process environment [envs] after [copyenv], without the empty ones. *)
Definition Environ (envs : list string) : list string :=
  filter (fun s => negb (String.eqb s EmptyString)) (snd (copyenv 0 [] envs)).

End syscall.

Module strconv.

(** [strconv.FormatInt(i, 10)] *)
Definition FormatInt (i : Z) : string := NilZero.string_of_int (Z.to_int i).

End strconv.

(** ** Numbers

    [int32] and [int64] values are integers in [Z] kept in their range;
    [float64] is IEEE 754 binary64 as specified by [SpecFloat]
    (53 bits of precision, [emax = 1024]). *)

Definition int32 := Z.
Definition int64 := Z.
Definition float64 := spec_float.

Definition int32_min : Z := - 2 ^ 31.
Definition int32_max : Z := 2 ^ 31 - 1.

Definition in_int32 (n : Z) : bool := (int32_min <=? n) && (n <=? int32_max).

(** Two's complement reduction of an integer to 32 bits. *)
Definition wrap_int32 (n : Z) : int32 := (n + 2 ^ 31) mod 2 ^ 32 - 2 ^ 31.

Module float.

Definition prec : Z := 53.
Definition emax : Z := 1024.

Definition add : float64 -> float64 -> float64 := SFadd prec emax.
Definition div : float64 -> float64 -> float64 := SFdiv prec emax.

(** [float64(n)] for an integer [n]: the nearest binary64, ties to even. *)
Definition of_int (n : Z) : float64 := binary_normalize prec emax n 0 false.

(** The integer part of a finite float (rounding toward zero);
    [None] for infinities and NaN. *)
Definition truncate (f : float64) : option Z :=
  match f with
  | S754_zero _ => Some 0
  | S754_finite s m e =>
      Some (cond_Zopp s (if 0 <=? e then Zpos m * 2 ^ e else Zpos m / 2 ^ (- e)))
  | S754_infinity _ | S754_nan => None
  end.

(** [int32(f)]: the fraction is discarded; when the truncated value does
    not fit the result type the conversion still succeeds and the Go
    specification leaves the value to the implementation, here
    [unrepresentable f]. *)
Definition to_int32 (unrepresentable : float64 -> Z) (f : float64) : int32 :=
  match truncate f with
  | Some n => if in_int32 n then n else wrap_int32 (unrepresentable f)
  | None => wrap_int32 (unrepresentable f)
  end.

End float.

Module time.

(** [time.Duration]: a count of nanoseconds in an [int64]. *)
Definition Duration := int64.
Definition Nanosecond : Duration := 1.
Definition Second : Duration := 1000000000 * Nanosecond.

(** [func (d Duration) Seconds() float64]:
    [sec := d / Second; nsec := d % Second;
     return float64(sec) + float64(nsec)/1e9]
    with Go's integer division and remainder, which truncate toward
    zero. *)
Definition Seconds (d : Duration) : float64 :=
  let sec := Z.quot d Second in
  let nsec := Z.rem d Second in
  float.add (float.of_int sec)
            (float.div (float.of_int nsec) (float.of_int 1000000000)).

End time.

(** ** [ptr]

    [reflect.ValueOf(v).IsZero()] for the types [ptr] is used at. *)

Class IsZero (T : Type) := isZero : T -> bool.

#[export] Instance IsZero_string : IsZero string :=
  fun s => match s with EmptyString => true | String _ _ => false end.

#[export] Instance IsZero_int32 : IsZero int32 :=
  fun n => n =? 0.

(** [func ptr[T any](v T) *T]: [nil] for the zero value, otherwise a pointer
    to (a copy of) [v]. *)
Definition ptr {T : Type} `{IsZero T} (v : T) : option T :=
  if isZero v then None else Some v.

(** ** The STS request and response *)

Module types.
Record Credentials : Type := {
  AccessKeyId : option string;
  SecretAccessKey : option string;
  SessionToken : option string
}.
End types.

Module sts.

Record AssumeRoleInput : Type := {
  RoleArn : option string;
  RoleSessionName : option string;
  DurationSeconds : option int32;
  ExternalId : option string;
  SerialNumber : option string;
  SourceIdentity : option string;
  TokenCode : option string
}.

Record AssumeRoleOutput : Type := {
  Credentials : option types.Credentials
}.

End sts.

(** ** Errors, commands and the events of a run *)

Inductive error : Type :=
| ExitError (code : Z)        (* [*exec.ExitError]: the child exited unsuccessfully *)
| errorString (msg : string). (* any other error *)

Module exec.

(** What the program puts into an [exec.Cmd]: the command name it passes to
    [exec.CommandContext], the argument vector and the environment.
    [cmd.Path] is not among them: package [exec] derives it from [Name],
    looking a bare name up in [$PATH], and reports a failed lookup when the
    command is run. *)
Record Cmd : Type := {
  Name : string;
  Args : list string;
  Env : list string
}.

(** [exec.CommandContext(ctx, name, arg...)]: [Args] is [name] followed by
    [arg]. *)
Definition CommandContext (name : string) (arg : list string) : Cmd :=
  {| Name := name; Args := name :: arg; Env := [] |}.

(** [cmd.Env = env] *)
Definition set_Env (cmd : Cmd) (env : list string) : Cmd :=
  {| Name := Name cmd; Args := Args cmd; Env := env |}.

(** What became of the child: it ran and exited with a status, or it
    could not be started or waited for. *)
Inductive Child : Type :=
| Exited (code : Z)
| Failed (msg : string).

(** The error [cmd.Run()] returns: [nil] exactly when the command ran and
    exited with status zero. *)
Definition Run_error (c : Child) : option error :=
  match c with
  | Exited code => if code =? 0 then None else Some (ExitError code)
  | Failed msg => Some (errorString msg)
  end.

End exec.

Inductive logged : Type :=
| Text (msg : string)
| Err (e : error).

Inductive event : Type :=
| EvLoadDefaultConfig                      (* [config.LoadDefaultConfig(ctx)] *)
| EvAssumeRole (input : sts.AssumeRoleInput) (* [stsClient.AssumeRole(ctx, input)] *)
| EvLog (v : logged)                       (* a line written by package [log] *)
| EvPanic                                  (* nil pointer dereference *)
| EvRun (cmd : exec.Cmd).                  (* [cmd.Run()]: the child is spawned *)

(** ** Computations that log events and may end the process *)

Definition Proc (A : Type) : Type := list event -> list event * (A + Z).

Definition ret {A} (a : A) : Proc A := fun t => (t, inl a).

Definition bind {A B} (m : Proc A) (f : A -> Proc B) : Proc B :=
  fun t =>
    let '(t', r) := m t in
    match r with
    | inl a => f a t'
    | inr status => (t', inr status)
    end.

Definition emit (e : event) : Proc unit := fun t => (t ++ [e], inl tt).

(** [os.Exit(code)] *)
Definition Exit {A} (code : Z) : Proc A := fun t => (t, inr code).

Declare Scope proc_scope.
Delimit Scope proc_scope with proc.
Notation "x <- m ;; k" := (bind m (fun x => k))
  (at level 100, m at next level, right associativity) : proc_scope.
Notation "m ;; k" := (bind m (fun _ => k))
  (at level 100, right associativity) : proc_scope.
Local Open Scope proc_scope.

Module log.

(** [log.Println(v)] *)
Definition Println (msg : string) : Proc unit := emit (EvLog (Text msg)).

(** [log.Fatal(v)]: [Print(v)] followed by [os.Exit(1)]. *)
Definition Fatal {A} (v : logged) : Proc A := emit (EvLog v) ;; Exit 1.

End log.

(** A run-time panic ends the process with status 2. *)
Definition panic {A} : Proc A := emit EvPanic ;; Exit 2.

(** [*p] *)
Definition deref {A} (p : option A) : Proc A :=
  match p with
  | Some a => ret a
  | None => panic
  end.

(** ** The world a run sees

    [flag.Parse()] has returned: the flag variables hold their parsed values
    and [flag.Args()] the remaining arguments.  (With [flag.ExitOnError] a
    command line asking for help or failing to parse ends the process inside
    [flag.Parse()], before anything below runs.)  Every answer the run gets
    from outside (the clock, the SDK, the service, the parent environment,
    the child) is a field of [World]. *)

Record World : Type := {
  (* flag variables *)
  roleArn : string;
  roleSessionName : string;
  duration : time.Duration;
  externalID : string;
  serialNumber : string;
  tokenCode : string;
  sourceIdentity : string;
  (* [flag.Args()] *)
  flag_Args : list string;
  (* [time.Now().UnixNano()] *)
  UnixNano : int64;
  (* the error of [config.LoadDefaultConfig(ctx)], if any *)
  LoadDefaultConfig_err : option error;
  (* the answer of [stsClient.AssumeRole(ctx, input)] *)
  AssumeRole : sts.AssumeRoleInput -> sts.AssumeRoleOutput + error;
  (* [os.Environ()]: [syscall.Environ envs] for the environment [envs] the
     process was started with *)
  os_Environ : list string;
  (* what the child process does *)
  child : exec.Cmd -> exec.Child;
  (* result of converting a float64 that does not fit into an int32 *)
  int32_unrepresentable : float64 -> Z
}.

(** ** Building the child environment *)

(** The keys of the [switch k] in the loop, in source order. *)
Definition denylist : list string :=
  [ "AWS_ROLE_ARN";
    "AWS_ACCESS_KEY_ID";
    "AWS_SECRET_ACCESS_KEY";
    "AWS_SESSION_TOKEN";
    "AWS_WEB_IDENTITY_TOKEN_FILE" ].

(** [switch k { case c1, ..., cn: ... }] takes the case when [k] equals one
    of the listed strings. *)
Definition switch_case (k : string) (cases : list string) : bool :=
  existsb (String.eqb k) cases.

(** The initial value of [env]. *)
Definition env_init (AccessKeyId SecretAccessKey SessionToken : string) : list string :=
  [ ("AWS_ACCESS_KEY_ID=" ++ AccessKeyId)%string;
    ("AWS_SECRET_ACCESS_KEY=" ++ SecretAccessKey)%string;
    ("AWS_SESSION_TOKEN=" ++ SessionToken)%string ].

(** [for _, e := range os.Environ() { ... }], threading [env]. *)
Fixpoint range_Environ (environ : list string) (env : list string) : Proc (list string) :=
  match environ with
  | [] => ret env
  | e :: rest =>
      let '(k, _, found) := strings.Cut e "=" in
      (if negb found then log.Fatal (Text "invalid environ") else ret tt) ;;
      if switch_case k denylist
      then range_Environ rest env            (* continue *)
      else range_Environ rest (env ++ [e])   (* env = append(env, e) *)
  end.

(** Lines 86-106: the environment handed to the child. *)
Definition build_env (role : sts.AssumeRoleOutput) (environ : list string)
  : Proc (list string) :=
  creds <- deref (sts.Credentials role) ;;
  ak <- deref (types.AccessKeyId creds) ;;
  sk <- deref (types.SecretAccessKey creds) ;;
  st <- deref (types.SessionToken creds) ;;
  range_Environ environ (env_init ak sk st).

(** ** [main] *)

(** The [sts.AssumeRoleInput] literal of lines 73-81. *)
Definition request (w : World) (roleSessionName : string) : sts.AssumeRoleInput :=
  {| sts.RoleArn := ptr (roleArn w);
     sts.RoleSessionName := ptr roleSessionName;
     sts.DurationSeconds :=
       ptr (float.to_int32 (int32_unrepresentable w) (time.Seconds (duration w)));
     sts.ExternalId := ptr (externalID w);
     sts.SerialNumber := ptr (serialNumber w);
     sts.SourceIdentity := ptr (sourceIdentity w);
     sts.TokenCode := ptr (tokenCode w) |}.

(** The session name after the default of lines 57-59 is applied. *)
Definition session_name (w : World) : string :=
  if String.eqb (roleSessionName w) "" then strconv.FormatInt (UnixNano w)
  else roleSessionName w.

Definition call_LoadDefaultConfig (w : World) : Proc (option error) :=
  emit EvLoadDefaultConfig ;; ret (LoadDefaultConfig_err w).

Definition call_AssumeRole (w : World) (input : sts.AssumeRoleInput)
  : Proc (sts.AssumeRoleOutput + error) :=
  emit (EvAssumeRole input) ;; ret (AssumeRole w input).

Definition cmd_Run (w : World) (cmd : exec.Cmd) : Proc (option error) :=
  emit (EvRun cmd) ;; ret (exec.Run_error (child w cmd)).

(** Lines 108-123: the command is built from [flag.Args()], given the
    environment and run. *)
Definition run_command (w : World) (env : list string) : Proc unit :=
  cmd <- match flag_Args w with
         | [name] => ret (exec.CommandContext name [])
         | name :: arg => ret (exec.CommandContext name arg)
         | [] => log.Println "no commands" ;; Exit 0
         end ;;
  let cmd := exec.set_Env cmd env in
  err <- cmd_Run w cmd ;;
  match err with
  | Some err => log.Fatal (Err err)
  | None => ret tt
  end.

Definition main (w : World) : Proc unit :=
  (if String.eqb (roleArn w) "" then log.Fatal (Text "role-arn is required")
   else ret tt) ;;
  let roleSessionName := session_name w in
  err <- call_LoadDefaultConfig w ;;
  match err with
  | Some err => log.Fatal (Err err)
  | None =>
      r <- call_AssumeRole w (request w roleSessionName) ;;
      match r with
      | inr err => log.Fatal (Err err)
      | inl role =>
          env <- build_env role (os_Environ w) ;;
          run_command w env
      end
  end.

(** A whole run: the events in order and the exit status of the process
    (0 when [main] returns). *)
Definition run (w : World) : list event * Z :=
  let '(t, r) := main w [] in
  (t, match r with inl _ => 0 | inr status => status end).

Definition trace (w : World) : list event := fst (run w).
Definition exit_status (w : World) : Z := snd (run w).

(** The run spawned a child. *)
Definition is_EvRun (e : event) : bool :=
  match e with EvRun _ => true | _ => false end.

Definition spawned (t : list event) : bool := existsb is_EvRun t.

(** The run made a network call. *)
Definition is_network (e : event) : bool :=
  match e with EvLoadDefaultConfig | EvAssumeRole _ => true | _ => false end.

(** ** Vocabulary of the properties *)

(** The key of an entry: the part before the first ['=']. *)
Definition key (e : string) : string := fst (fst (strings.Cut e "=")).

(** The entry contains the character ['=']. *)
Definition has_eq (e : string) : bool := strings.ContainsByte e "=".

(** The key is one of the five denylisted names. *)
Definition denylisted (k : string) : bool := switch_case k denylist.

(** Number of entries of [env] whose key is [k]. *)
Definition count_key (k : string) (env : list string) : nat :=
  List.length (filter (fun e => String.eqb (key e) k) env).

(** The names of the three injected entries. *)
Definition injected : list string :=
  [ "AWS_ACCESS_KEY_ID"; "AWS_SECRET_ACCESS_KEY"; "AWS_SESSION_TOKEN" ].

(** The parent entries that are carried over. *)
Definition kept (environ : list string) : list string :=
  filter (fun e => negb (denylisted (key e))) environ.

(** A response that carries all three credential strings. *)
Definition credentials_of (ak sk st : string) : sts.AssumeRoleOutput :=
  {| sts.Credentials :=
       Some {| types.AccessKeyId := Some ak;
               types.SecretAccessKey := Some sk;
               types.SessionToken := Some st |} |}.

(** The run gets as far as building the environment, with the response
    [role] in hand: the role ARN is set, the configuration loads and the
    service answers. *)
Definition reaches_build_env (w : World) (role : sts.AssumeRoleOutput) : Prop :=
  roleArn w <> EmptyString /\
  LoadDefaultConfig_err w = None /\
  AssumeRole w (request w (session_name w)) = inl role.

(** The command [run_command] runs for arguments [name :: arg]. *)
Definition command (name : string) (arg env : list string) : exec.Cmd :=
  exec.set_Env (exec.CommandContext name arg) env.

(** A world for examples: the service answers every request with the same
    credentials, and the child behaves as [c]. *)
Definition example_world (arn : string) (d : time.Duration)
  (args environ : list string) (c : exec.Child) : World :=
  {| roleArn := arn;
     roleSessionName := "session";
     duration := d;
     externalID := "";
     serialNumber := "";
     tokenCode := "";
     sourceIdentity := "";
     flag_Args := args;
     UnixNano := 1700000000000000000;
     LoadDefaultConfig_err := None;
     AssumeRole := fun _ => inl (credentials_of "AKIA" "secret" "token");
     os_Environ := environ;
     child := fun _ => c;
     int32_unrepresentable := fun _ => int32_min |}.

Definition example_arn : string := "arn:aws:iam::123456789012:role/demo".

(** Role ARN unset. *)
Definition world_no_role_arn : World :=
  example_world "" 900000000000 ["env"] ["PATH=/bin"] (exec.Exited 0).

(** A parent entry without ['=']. *)
Definition world_invalid_environ : World :=
  example_world example_arn 900000000000
    ["env"] ["PATH=/bin"; "garbage"; "HOME=/root"] (exec.Exited 0).

(** No command on the command line. *)
Definition world_no_commands : World :=
  example_world example_arn 900000000000
    [] ["PATH=/bin"; "AWS_ROLE_ARN=old"] (exec.Exited 0).

(** The child exits with status 3. *)
Definition world_child_exits_3 : World :=
  example_world example_arn 900000000000
    ["sh"; "-c"; "exit 3"] ["PATH=/bin"; "AWS_ROLE_ARN=old"] (exec.Exited 3).

(** An external ID is given; the other optional parameters are empty. *)
Definition world_external_id : World :=
  {| roleArn := example_arn;
     roleSessionName := "";
     duration := 900000000000;
     externalID := "ext-42";
     serialNumber := "";
     tokenCode := "";
     sourceIdentity := "";
     flag_Args := ["env"];
     UnixNano := 1700000000000000000;
     LoadDefaultConfig_err := None;
     AssumeRole := fun _ => inl (credentials_of "AKIA" "secret" "token");
     os_Environ := ["PATH=/bin"];
     child := fun _ => exec.Exited 0;
     int32_unrepresentable := fun _ => int32_min |}.

(** The command that world runs. *)
Definition cmd_exit_3 : exec.Cmd :=
  command "sh" ["-c"; "exit 3"]
    [ "AWS_ACCESS_KEY_ID=AKIA"; "AWS_SECRET_ACCESS_KEY=secret";
      "AWS_SESSION_TOKEN=token"; "PATH=/bin" ].

(** ** Vocabulary of the float64 proofs *)

(** What a shifted mantissa stands for during rounding.  [M] is the exact
    quantity being rounded, counted in half-units [H] of the mantissa held
    in [mrs]: the mantissa accounts for [2 * shr_m * H], the round bit for
    one more [H], and the rest, below [H], is nonzero only when the sticky
    bit is set. *)
Definition shr_inv (M H : Z) (mrs : shr_record) : Prop :=
  exists low,
    M = 2 * shr_m mrs * H + (if shr_r mrs then H else 0) + low /\
    0 <= low < H /\
    (shr_s mrs = false -> low = 0) /\
    0 <= shr_m mrs.

(** The mantissa of the float64 constant [1e9], which is [billion * 2^-23]. *)
Definition billion : positive := 8388608000000000.

(** A duration of half a second. *)
Definition world_sub_second : World :=
  example_world example_arn 500000000 ["env"] ["PATH=/bin"] (exec.Exited 0).

(** A duration of 16777216.999999999 seconds. *)
Definition world_long_duration : World :=
  example_world example_arn 16777216999999999 ["env"] ["PATH=/bin"] (exec.Exited 0).

(** ** Vocabulary of the further properties *)

(** The configuration fails to load. *)
Definition world_config_error : World :=
  {| roleArn := example_arn;
     roleSessionName := "session";
     duration := 900000000000;
     externalID := "";
     serialNumber := "";
     tokenCode := "";
     sourceIdentity := "";
     flag_Args := ["env"];
     UnixNano := 1700000000000000000;
     LoadDefaultConfig_err := Some (errorString "failed to load config");
     AssumeRole := fun _ => inl (credentials_of "AKIA" "secret" "token");
     os_Environ := ["PATH=/bin"];
     child := fun _ => exec.Exited 0;
     int32_unrepresentable := fun _ => int32_min |}.

(** The service refuses the request. *)
Definition world_access_denied : World :=
  {| roleArn := example_arn;
     roleSessionName := "session";
     duration := 900000000000;
     externalID := "";
     serialNumber := "";
     tokenCode := "";
     sourceIdentity := "";
     flag_Args := ["env"];
     UnixNano := 1700000000000000000;
     LoadDefaultConfig_err := None;
     AssumeRole := fun _ => inr (errorString "AccessDenied");
     os_Environ := ["PATH=/bin"];
     child := fun _ => exec.Exited 0;
     int32_unrepresentable := fun _ => int32_min |}.

(** The response carries no session token; the parent environment is
    malformed as well. *)
Definition world_no_session_token : World :=
  {| roleArn := example_arn;
     roleSessionName := "session";
     duration := 900000000000;
     externalID := "";
     serialNumber := "";
     tokenCode := "";
     sourceIdentity := "";
     flag_Args := ["env"];
     UnixNano := 1700000000000000000;
     LoadDefaultConfig_err := None;
     AssumeRole := fun _ =>
       inl {| sts.Credentials :=
                Some {| types.AccessKeyId := Some "AKIA";
                        types.SecretAccessKey := Some "secret";
                        types.SessionToken := None |} |};
     os_Environ := ["PATH=/bin"; "garbage"];
     child := fun _ => exec.Exited 0;
     int32_unrepresentable := fun _ => int32_min |}.

(** The command cannot be started. *)
Definition world_child_not_found : World :=
  example_world example_arn 900000000000
    ["no-such-command"] ["PATH=/bin"] (exec.Failed "executable file not found in $PATH").

(** Everything succeeds and the child exits with status 0. *)
Definition world_success : World :=
  example_world example_arn 900000000000
    ["env"; "-0"] ["PATH=/bin"; "AWS_SESSION_TOKEN=stale"; "HOME=/root"] (exec.Exited 0).

(** The response lacks the credentials or one of their three strings. *)
Definition lacks_credentials (role : sts.AssumeRoleOutput) : bool :=
  match sts.Credentials role with
  | Some {| types.AccessKeyId := Some _;
            types.SecretAccessKey := Some _;
            types.SessionToken := Some _ |} => false
  | _ => true
  end.

(** The event of a run-time panic. *)
Definition is_EvPanic (e : event) : bool :=
  match e with EvPanic => true | _ => false end.

(** Kinds of events. *)
Definition is_EvLoadDefaultConfig (e : event) : bool :=
  match e with EvLoadDefaultConfig => true | _ => false end.

Definition is_EvAssumeRole (e : event) : bool :=
  match e with EvAssumeRole _ => true | _ => false end.

(** Number of events of a kind in a trace. *)
Definition count_events (p : event -> bool) (t : list event) : nat :=
  List.length (filter p t).

(** * Properties *)

(** ** [strings.Cut] on ["="] *)

Lemma substring_whole (s : string) (n : nat) :
  (String.length s <= n)%nat -> String.substring 0 n s = s.
Proof.
  revert n. induction s as [| c s IH]; intros [| n] Hn; cbn in *;
    try reflexivity; try lia.
  f_equal. apply IH. lia.
Qed.

Lemma Cut_eq_cons (c : ascii) (s : string) :
  strings.Cut (String c s) "=" =
    if Ascii.eqb c "=" then (EmptyString, s, true)
    else let '(before, after, found) := strings.Cut s "=" in
         if found then (String c before, after, true)
         else (String c s, EmptyString, false).
Proof.
  cbn [strings.Cut String.prefix].
  destruct (ascii_dec "=" c) as [<- | Hne].
  - cbn [Ascii.eqb Bool.eqb String.length String.substring].
    rewrite substring_whole by lia. now destruct s.
  - destruct (Ascii.eqb_spec c "=") as [-> | _]; [congruence | reflexivity].
Qed.

Lemma Cut_found (s : string) :
  snd (strings.Cut s "=") = has_eq s.
Proof.
  induction s as [| c s IH]; [reflexivity|].
  rewrite Cut_eq_cons. unfold has_eq in *. cbn [strings.ContainsByte].
  destruct (Ascii.eqb c "="); [reflexivity|].
  destruct (strings.Cut s "=") as [[b a] f]. cbn in *. subst f.
  destruct (strings.ContainsByte s "="); reflexivity.
Qed.

Lemma Cut_key_value (k v : string) :
  has_eq k = false ->
  strings.Cut (k ++ String "=" v) "=" = (k, v, true).
Proof.
  unfold has_eq. induction k as [| c k IH]; intros Hk.
  - apply (Cut_eq_cons "=" v).
  - cbn [strings.ContainsByte] in Hk. apply orb_false_iff in Hk as [Hc Hk].
    cbn [String.append]. rewrite Cut_eq_cons, Hc, (IH Hk). reflexivity.
Qed.

Lemma key_of_entry (k v : string) :
  has_eq k = false -> key (k ++ String "=" v) = k.
Proof. intros Hk. unfold key. now rewrite Cut_key_value. Qed.

Lemma has_eq_entry (k v : string) : has_eq (k ++ String "=" v) = true.
Proof.
  unfold has_eq. induction k as [| c k IH]; cbn; [reflexivity|].
  rewrite IH. apply orb_true_r.
Qed.

(** ** The denylist test *)

Lemma denylisted_In (k : string) : denylisted k = true <-> In k denylist.
Proof.
  unfold denylisted, switch_case. rewrite existsb_exists. split.
  - intros (d & Hd & Heq). apply String.eqb_eq in Heq. now subst.
  - intros Hk. exists k. split; [assumption | apply String.eqb_refl].
Qed.

Lemma injected_denylisted (k : string) : In k injected -> denylisted k = true.
Proof.
  intros Hk. apply denylisted_In. unfold injected, denylist in *. cbn in *.
  intuition.
Qed.

(** ** The loop over the parent environment *)

Lemma range_Environ_ok (environ : list string) :
  Forall (fun e => has_eq e = true) environ ->
  forall env t, range_Environ environ env t = (t, inl (env ++ kept environ)).
Proof.
  induction 1 as [| e rest He _ IH]; intros env t.
  - cbn. now rewrite app_nil_r.
  - cbn [range_Environ kept filter]. fold (kept rest).
    unfold denylisted, key. rewrite <- Cut_found in He.
    destruct (strings.Cut e "=") as [[k a] found]. cbn in He. subst found.
    cbn [fst negb]. unfold bind at 1. cbn [ret].
    destruct (switch_case k denylist); cbn [negb]; rewrite IH.
    + reflexivity.
    + now rewrite <- app_assoc.
Qed.

Lemma range_Environ_invalid (environ : list string) :
  Exists (fun e => has_eq e = false) environ ->
  forall env t,
    range_Environ environ env t = (t ++ [EvLog (Text "invalid environ")], inr 1).
Proof.
  induction environ as [| e rest IH]; intros Hex env t.
  - inversion Hex.
  - cbn [range_Environ].
    pose proof (Cut_found e) as Hf.
    destruct (strings.Cut e "=") as [[k a] found]. cbn in Hf. subst found.
    destruct (has_eq e) eqn:He.
    + assert (Hrest : Exists (fun e => has_eq e = false) rest)
        by (inversion Hex; subst; [congruence | assumption]).
      cbn [negb]. unfold bind at 1. cbn [ret].
      destruct (switch_case k denylist); now rewrite IH.
    + reflexivity.
Qed.

Lemma build_env_credentials (ak sk st : string) (environ : list string) (t : list event) :
  build_env (credentials_of ak sk st) environ t =
    range_Environ environ (env_init ak sk st) t.
Proof. reflexivity. Qed.

Lemma keys_env_init (ak sk st : string) :
  map key (env_init ak sk st) = injected.
Proof.
  unfold env_init, injected. cbn [map].
  change (key ("AWS_ACCESS_KEY_ID" ++ String "=" ak)
          :: key ("AWS_SECRET_ACCESS_KEY" ++ String "=" sk)
          :: key ("AWS_SESSION_TOKEN" ++ String "=" st) :: nil
          = injected).
  now rewrite !key_of_entry.
Qed.

Lemma kept_spec (environ : list string) (e : string) :
  In e (kept environ) <-> In e environ /\ denylisted (key e) = false.
Proof.
  unfold kept. rewrite filter_In, negb_true_iff. reflexivity.
Qed.

Lemma kept_all (environ : list string) :
  (forall e, In e environ -> denylisted (key e) = false) ->
  kept environ = environ.
Proof.
  induction environ as [| e rest IH]; intros Hall; [reflexivity|].
  cbn [kept filter]. rewrite (Hall e (or_introl eq_refl)). cbn [negb].
  f_equal. apply IH. intros e' He'. apply Hall. now right.
Qed.

Lemma count_key_app (k : string) (l1 l2 : list string) :
  count_key k (l1 ++ l2) = (count_key k l1 + count_key k l2)%nat.
Proof. unfold count_key. now rewrite filter_app, length_app. Qed.

Lemma count_key_kept_denylisted (k : string) (environ : list string) :
  denylisted k = true -> count_key k (kept environ) = 0%nat.
Proof.
  intros Hk. unfold count_key, kept.
  induction environ as [| e rest IH]; [reflexivity|].
  cbn [filter]. destruct (denylisted (key e)) eqn:Hd; cbn [negb]; [assumption|].
  cbn [filter]. destruct (String.eqb_spec (key e) k) as [Heq | _]; [|assumption].
  congruence.
Qed.

Lemma count_key_map (k : string) (l : list string) :
  count_key k l = List.length (filter (fun k' => String.eqb k' k) (map key l)).
Proof.
  unfold count_key. induction l as [| e l IH]; [reflexivity|].
  cbn [filter map]. destruct (String.eqb (key e) k); cbn [List.length]; now rewrite IH.
Qed.

Lemma count_key_env_init (ak sk st k : string) :
  In k injected -> count_key k (env_init ak sk st) = 1%nat.
Proof.
  intros Hk. rewrite count_key_map, keys_env_init.
  unfold injected in *. cbn in Hk.
  destruct Hk as [<- | [<- | [<- | []]]]; reflexivity.
Qed.

Lemma count_key_env_init_le (ak sk st k : string) :
  (count_key k (env_init ak sk st) <= 1)%nat.
Proof.
  rewrite count_key_map, keys_env_init. unfold injected. cbn [filter].
  destruct (String.eqb_spec "AWS_ACCESS_KEY_ID" k) as [<- | _];
    [cbn; lia|].
  destruct (String.eqb_spec "AWS_SECRET_ACCESS_KEY" k) as [<- | _];
    [cbn; lia|].
  destruct (String.eqb "AWS_SESSION_TOKEN" k); cbn; lia.
Qed.

(** C1. For a parent environment whose entries all contain ['='], the
    environment is built, its first three entries are the injected ones
    with keys AWS_ACCESS_KEY_ID, AWS_SECRET_ACCESS_KEY, AWS_SESSION_TOKEN,
    every entry after them comes from the parent and has a key outside the
    denylist, each injected key occurs exactly once and no denylisted key
    occurs more than once. *)
Theorem child_env_injected_once_first
  (ak sk st : string) (environ : list string) (t : list event) :
  Forall (fun e => has_eq e = true) environ ->
  exists rest,
    build_env (credentials_of ak sk st) environ t
      = (t, inl (env_init ak sk st ++ rest)) /\
    map key (env_init ak sk st) = injected /\
    (forall e, In e rest -> In e environ /\ denylisted (key e) = false) /\
    (forall k, In k injected ->
       count_key k (env_init ak sk st ++ rest) = 1%nat) /\
    (forall k, denylisted k = true ->
       count_key k rest = 0%nat /\
       (count_key k (env_init ak sk st ++ rest) <= 1)%nat).
Proof.
  intros Hwf. exists (kept environ).
  split; [| split; [| split; [| split; [| intros k Hk; split]]]].
  - rewrite build_env_credentials. now apply range_Environ_ok.
  - apply keys_env_init.
  - intros e He. now apply kept_spec.
  - intros k Hk.
    rewrite count_key_app, count_key_env_init by assumption.
    rewrite count_key_kept_denylisted; [reflexivity|].
    now apply injected_denylisted.
  - now apply count_key_kept_denylisted.
  - rewrite count_key_app, count_key_kept_denylisted by assumption.
    pose proof (count_key_env_init_le ak sk st k). lia.
Qed.

Lemma child_env_injected_once_first_witness :
  exists rest,
    build_env (credentials_of "AKIA" "secret" "token")
      [ "PATH=/bin"; "AWS_SESSION_TOKEN=old"; "HOME=/root" ] []
      = ([], inl (env_init "AKIA" "secret" "token" ++ rest)) /\
    map key (env_init "AKIA" "secret" "token") = injected /\
    (forall e, In e rest ->
       In e [ "PATH=/bin"; "AWS_SESSION_TOKEN=old"; "HOME=/root" ] /\
       denylisted (key e) = false) /\
    (forall k, In k injected ->
       count_key k (env_init "AKIA" "secret" "token" ++ rest) = 1%nat) /\
    (forall k, denylisted k = true ->
       count_key k rest = 0%nat /\
       (count_key k (env_init "AKIA" "secret" "token" ++ rest) <= 1)%nat).
Proof.
  apply (child_env_injected_once_first "AKIA" "secret" "token"
           [ "PATH=/bin"; "AWS_SESSION_TOKEN=old"; "HOME=/root" ] []).
  repeat constructor.
Defined.

(** C2. When every parent entry contains ['='] and none has a denylisted
    key, the child environment is the three injected entries followed by
    the parent environment unchanged, in its order. *)
Theorem child_env_without_denylisted_keys
  (ak sk st : string) (environ : list string) (t : list event) :
  Forall (fun e => has_eq e = true) environ ->
  Forall (fun e => denylisted (key e) = false) environ ->
  build_env (credentials_of ak sk st) environ t
    = (t, inl (env_init ak sk st ++ environ)).
Proof.
  intros Hwf Hclean.
  rewrite build_env_credentials, range_Environ_ok by assumption.
  rewrite kept_all; [reflexivity|].
  now apply Forall_forall.
Qed.

Lemma child_env_without_denylisted_keys_witness :
  build_env (credentials_of "AKIA" "secret" "token")
    [ "PATH=/bin"; "HOME=/root"; "PATH=/usr/bin" ] []
  = ([], inl [ "AWS_ACCESS_KEY_ID=AKIA"; "AWS_SECRET_ACCESS_KEY=secret";
               "AWS_SESSION_TOKEN=token";
               "PATH=/bin"; "HOME=/root"; "PATH=/usr/bin" ]).
Proof.
  apply (child_env_without_denylisted_keys "AKIA" "secret" "token"
           [ "PATH=/bin"; "HOME=/root"; "PATH=/usr/bin" ] []);
    repeat constructor.
Defined.

(** ** Distinct keys *)

Lemma kept_keys_distinct (environ : list string) :
  NoDup (map key environ) -> NoDup (map key (kept environ)).
Proof.
  unfold kept. induction environ as [| e rest IH]; cbn [map filter]; intros Hnd.
  - constructor.
  - apply NoDup_cons_iff in Hnd as [Hfresh Hrest].
    destruct (denylisted (key e)); cbn [negb map]; [now apply IH|].
    apply NoDup_cons; [|now apply IH].
    contradict Hfresh.
    apply in_map_iff in Hfresh as (e' & Hkey & He').
    apply filter_In in He' as [He' _].
    rewrite <- Hkey. now apply in_map.
Qed.

Lemma NoDup_injected : NoDup injected.
Proof.
  unfold injected. repeat constructor; cbn; intuition discriminate.
Qed.

(** The builder keeps the keys distinct when the parent's keys are. *)
Lemma build_env_keys_distinct
  (ak sk st : string) (environ : list string) :
  NoDup (map key environ) ->
  NoDup (map key (env_init ak sk st ++ kept environ)).
Proof.
  intros Hnd. rewrite map_app, keys_env_init. apply NoDup_app.
  - apply NoDup_injected.
  - now apply kept_keys_distinct.
  - intros k Hk Hin. apply injected_denylisted in Hk.
    apply in_map_iff in Hin as (e & <- & He).
    apply kept_spec in He as [_ He]. congruence.
Qed.

(** ** Exact matching of keys *)

Lemma strict_extension_not_denylisted (d s : string) :
  In d denylist -> s <> EmptyString -> denylisted (d ++ s) = false.
Proof.
  intros Hd Hs. destruct s as [| c s]; [congruence|].
  unfold denylist in Hd. cbn in Hd.
  destruct Hd as [<- | [<- | [<- | [<- | [<- | []]]]]]; reflexivity.
Qed.

Lemma strict_prefix_not_denylisted (d k s : string) :
  In d denylist -> s <> EmptyString -> d = (k ++ s)%string ->
  denylisted k = false.
Proof.
  intros Hd Hs Heq. destruct s as [| c s]; [congruence|].
  destruct (denylisted k) eqn:Hk; [exfalso | reflexivity].
  apply denylisted_In in Hk. unfold denylist in Hd, Hk. cbn in Hd, Hk.
  destruct Hd as [<- | [<- | [<- | [<- | [<- | []]]]]];
    destruct Hk as [<- | [<- | [<- | [<- | [<- | []]]]]];
    cbn in Heq; discriminate Heq.
Qed.

(** C10. The loop keeps or drops an entry by comparing its whole key with
    the five denylisted names: an entry [k=v] is kept exactly when [k] is
    not literally one of them, whatever [v] is, and an entry whose key
    strictly extends a denylisted name, or is a strict prefix of one, is in
    the child environment. *)
Theorem denylist_compares_whole_key
  (ak sk st : string) (environ : list string) (t : list event) :
  Forall (fun e => has_eq e = true) environ ->
  exists env,
    build_env (credentials_of ak sk st) environ t = (t, inl env) /\
    env = env_init ak sk st ++ kept environ /\
    (forall k v, has_eq k = false ->
       (In (k ++ String "=" v)%string (kept environ) <->
        In (k ++ String "=" v)%string environ /\ ~ In k denylist)) /\
    (forall e d s, In e environ -> In d denylist -> s <> EmptyString ->
       key e = (d ++ s)%string \/ d = (key e ++ s)%string ->
       In e env).
Proof.
  intros Hwf. exists (env_init ak sk st ++ kept environ).
  split; [| split; [reflexivity | split]].
  - rewrite build_env_credentials. now apply range_Environ_ok.
  - intros k v Hk. rewrite kept_spec, key_of_entry by assumption.
    rewrite <- denylisted_In. destruct (denylisted k); intuition congruence.
  - intros e d s He Hd Hs Hkey. apply in_or_app. right.
    apply kept_spec. split; [assumption|].
    destruct Hkey as [-> | Hpre].
    + now apply strict_extension_not_denylisted.
    + now apply (strict_prefix_not_denylisted d (key e) s).
Qed.

Lemma denylist_compares_whole_key_witness :
  exists env,
    build_env (credentials_of "AKIA" "secret" "token")
      [ "AWS_SESSION_TOKEN_BACKUP=x"; "AWS_SESSION_TOKEN=old"; "AWS_ROLE=r" ] []
      = ([], inl env) /\
    env = env_init "AKIA" "secret" "token"
          ++ kept [ "AWS_SESSION_TOKEN_BACKUP=x"; "AWS_SESSION_TOKEN=old"; "AWS_ROLE=r" ] /\
    (forall k v, has_eq k = false ->
       (In (k ++ String "=" v)%string
           (kept [ "AWS_SESSION_TOKEN_BACKUP=x"; "AWS_SESSION_TOKEN=old"; "AWS_ROLE=r" ]) <->
        In (k ++ String "=" v)%string
           [ "AWS_SESSION_TOKEN_BACKUP=x"; "AWS_SESSION_TOKEN=old"; "AWS_ROLE=r" ]
        /\ ~ In k denylist)) /\
    (forall e d s,
       In e [ "AWS_SESSION_TOKEN_BACKUP=x"; "AWS_SESSION_TOKEN=old"; "AWS_ROLE=r" ] ->
       In d denylist -> s <> EmptyString ->
       key e = (d ++ s)%string \/ d = (key e ++ s)%string ->
       In e env).
Proof.
  apply (denylist_compares_whole_key "AKIA" "secret" "token"
           [ "AWS_SESSION_TOKEN_BACKUP=x"; "AWS_SESSION_TOKEN=old"; "AWS_ROLE=r" ] []).
  repeat constructor.
Defined.

(** ** The stages of [main] *)

Lemma environ_valid_or_not (environ : list string) :
  Forall (fun e => has_eq e = true) environ \/
  Exists (fun e => has_eq e = false) environ.
Proof.
  induction environ as [| e rest [IH | IH]].
  - left. constructor.
  - destruct (has_eq e) eqn:He.
    + left. now constructor.
    + right. now constructor.
  - right. now constructor.
Qed.

Lemma build_env_outcome (role : sts.AssumeRoleOutput) (environ : list string)
  (t : list event) :
  (exists ak sk st, role = credentials_of ak sk st) \/
  build_env role environ t = (t ++ [EvPanic], inr 2).
Proof.
  destruct role as [[[[ak |] [sk |] [st |]] |]];
    try (right; reflexivity).
  left. now exists ak, sk, st.
Qed.

Lemma run_command_no_args (w : World) (env : list string) (t : list event) :
  flag_Args w = [] ->
  run_command w env t = (t ++ [EvLog (Text "no commands")], inr 0).
Proof. intros Hargs. unfold run_command. now rewrite Hargs. Qed.

Lemma run_command_args (w : World) (env : list string) (t : list event)
  (name : string) (arg : list string) :
  flag_Args w = name :: arg ->
  run_command w env t =
    match exec.Run_error (child w (command name arg env)) with
    | Some err => (t ++ [EvRun (command name arg env)] ++ [EvLog (Err err)], inr 1)
    | None => (t ++ [EvRun (command name arg env)], inl tt)
    end.
Proof.
  intros Hargs. unfold run_command. rewrite Hargs.
  assert (Hcmd : match arg with
                 | [] => ret (exec.CommandContext name [])
                 | _ :: _ => ret (exec.CommandContext name arg)
                 end = ret (exec.CommandContext name arg))
    by now destruct arg.
  rewrite Hcmd. unfold bind, ret, cmd_Run, emit, command. cbn.
  destruct (exec.Run_error _); cbn; [|reflexivity].
  now rewrite <- app_assoc.
Qed.

Lemma main_role_missing (w : World) :
  roleArn w = EmptyString ->
  main w [] = ([EvLog (Text "role-arn is required")], inr 1).
Proof. intros Harn. unfold main. now rewrite Harn. Qed.

Lemma main_stages (w : World) :
  roleArn w <> EmptyString ->
  main w [] =
    match LoadDefaultConfig_err w with
    | Some err => ([EvLoadDefaultConfig; EvLog (Err err)], inr 1)
    | None =>
        let input := request w (session_name w) in
        match AssumeRole w input with
        | inr err => ([EvLoadDefaultConfig; EvAssumeRole input; EvLog (Err err)], inr 1)
        | inl role =>
            (env <- build_env role (os_Environ w) ;; run_command w env)
              [EvLoadDefaultConfig; EvAssumeRole input]
        end
    end.
Proof.
  intros Harn. unfold main.
  destruct (String.eqb_spec (roleArn w) "") as [Heq | _]; [contradiction|].
  unfold bind at 1. cbn [ret].
  unfold bind at 1, call_LoadDefaultConfig. cbn.
  destruct (LoadDefaultConfig_err w); [reflexivity|].
  unfold bind at 1, call_AssumeRole. cbn.
  destruct (AssumeRole w _); reflexivity.
Qed.

Lemma main_reaches_build_env (w : World) (role : sts.AssumeRoleOutput) :
  reaches_build_env w role ->
  main w [] =
    (env <- build_env role (os_Environ w) ;; run_command w env)
      [EvLoadDefaultConfig; EvAssumeRole (request w (session_name w))].
Proof.
  intros (Harn & Hcfg & Hrole). rewrite main_stages by assumption.
  rewrite Hcfg. cbn zeta. now rewrite Hrole.
Qed.

(** ** Events of a run *)

Lemma spawned_app (t1 t2 : list event) :
  spawned (t1 ++ t2) = spawned t1 || spawned t2.
Proof. apply existsb_app. Qed.

(** A run whose environment stage always ends the process with a non-zero
    status spawns no child and exits non-zero. *)
Lemma main_stops_at_build_env (w : World) :
  (forall role t, exists t' status,
      build_env role (os_Environ w) t = (t ++ t', inr status) /\
      spawned t' = false /\ status <> 0) ->
  spawned (trace w) = false /\ exit_status w <> 0.
Proof.
  intros Hstop. unfold trace, exit_status, run.
  destruct (String.eqb_spec (roleArn w) "") as [Harn | Harn].
  - rewrite main_role_missing by assumption. cbn. split; [reflexivity | lia].
  - rewrite main_stages by assumption.
    destruct (LoadDefaultConfig_err w); [cbn; split; [reflexivity | lia]|].
    cbn zeta. destruct (AssumeRole w _) as [role | err];
      [| cbn; split; [reflexivity | lia]].
    unfold bind.
    destruct (Hstop role [EvLoadDefaultConfig;
                          EvAssumeRole (request w (session_name w))])
      as (t' & status & Hb & Hsp & Hst).
    rewrite Hb. cbn [fst snd]. rewrite spawned_app, Hsp. now split.
Qed.

Lemma build_env_events (role : sts.AssumeRoleOutput) (environ : list string)
  (t : list event) :
  exists t' r,
    build_env role environ t = (t ++ t', r) /\
    spawned t' = false /\ existsb is_network t' = false.
Proof.
  destruct (build_env_outcome role environ t) as [(ak & sk & st & ->) | Hpanic].
  - rewrite build_env_credentials.
    destruct (environ_valid_or_not environ) as [Hok | Hbad].
    + exists [], (inl (env_init ak sk st ++ kept environ)).
      rewrite app_nil_r, range_Environ_ok by assumption. now repeat split.
    + exists [EvLog (Text "invalid environ")], (inr 1).
      rewrite range_Environ_invalid by assumption. now repeat split.
  - exists [EvPanic], (inr 2). now repeat split.
Qed.

Lemma run_command_events (w : World) (env : list string) (t : list event) :
  exists t' r,
    run_command w env t = (t ++ t', r) /\ existsb is_network t' = false.
Proof.
  destruct (flag_Args w) as [| name arg] eqn:Hargs.
  - rewrite run_command_no_args by assumption. now eexists _, _.
  - rewrite (run_command_args w env t name arg) by assumption.
    destruct (exec.Run_error _); now eexists _, _.
Qed.

(** The only request a run sends is the one built from the flags. *)
Lemma trace_request (w : World) (input : sts.AssumeRoleInput) :
  In (EvAssumeRole input) (trace w) -> input = request w (session_name w).
Proof.
  unfold trace, run.
  destruct (String.eqb_spec (roleArn w) "") as [Harn | Harn].
  - rewrite main_role_missing by assumption. cbn. intuition discriminate.
  - rewrite main_stages by assumption.
    destruct (LoadDefaultConfig_err w); [cbn; intuition discriminate|].
    cbn zeta.
    assert (Hhead : forall t',
               existsb is_network t' = false ->
               In (EvAssumeRole input)
                  ([EvLoadDefaultConfig; EvAssumeRole (request w (session_name w))] ++ t') ->
               input = request w (session_name w)).
    { intros t' Hnet [Hin | [Hin | Hin]]; [discriminate | congruence |].
      assert (existsb is_network t' = true)
        by (apply existsb_exists; now exists (EvAssumeRole input)).
      congruence. }
    destruct (AssumeRole w _) as [role | err].
    + unfold bind.
      destruct (build_env_events role (os_Environ w)
                  [EvLoadDefaultConfig; EvAssumeRole (request w (session_name w))])
        as (t1 & r1 & -> & _ & Hn1).
      destruct r1 as [env | status]; cbn [fst].
      * destruct (run_command_events w env
                    ([EvLoadDefaultConfig; EvAssumeRole (request w (session_name w))] ++ t1))
          as (t2 & r2 & -> & Hn2).
        cbn [fst]. rewrite <- app_assoc. apply Hhead.
        now rewrite existsb_app, Hn1, Hn2.
      * now apply Hhead.
    + cbn. intros [Hin | [Hin | [Hin | []]]]; congruence.
Qed.

(** ** Claims about [main] *)

(** C7. With the role ARN unset the run logs "role-arn is required" and
    exits with status 1; that line is its only event, so nothing was loaded,
    requested or spawned, whatever the other flags and arguments are. *)
Theorem role_arn_required (w : World) :
  roleArn w = EmptyString ->
  run w = ([EvLog (Text "role-arn is required")], 1) /\
  exit_status w <> 0 /\
  existsb is_network (trace w) = false /\
  spawned (trace w) = false.
Proof.
  intros Harn. unfold exit_status, trace, run.
  rewrite main_role_missing by assumption. cbn. repeat split. lia.
Qed.

Lemma role_arn_required_witness :
  run world_no_role_arn = ([EvLog (Text "role-arn is required")], 1) /\
  exit_status world_no_role_arn <> 0 /\
  existsb is_network (trace world_no_role_arn) = false /\
  spawned (trace world_no_role_arn) = false.
Proof. apply (role_arn_required world_no_role_arn). reflexivity. Defined.

(** C6. When some parent entry has no ['='], building the environment logs
    "invalid environ" and exits with status 1; the run spawns no child and
    its exit status is not zero, and a run that reached the environment
    stage ends with that diagnostic and status 1. *)
Theorem invalid_environ_is_fatal (w : World) :
  Exists (fun e => has_eq e = false) (os_Environ w) ->
  (forall ak sk st t,
      build_env (credentials_of ak sk st) (os_Environ w) t
        = (t ++ [EvLog (Text "invalid environ")], inr 1)) /\
  spawned (trace w) = false /\
  exit_status w <> 0 /\
  (forall ak sk st,
      reaches_build_env w (credentials_of ak sk st) ->
      run w = ([EvLoadDefaultConfig;
                EvAssumeRole (request w (session_name w));
                EvLog (Text "invalid environ")], 1)).
Proof.
  intros Hbad.
  assert (Hbuild : forall ak sk st t,
             build_env (credentials_of ak sk st) (os_Environ w) t
             = (t ++ [EvLog (Text "invalid environ")], inr 1)).
  { intros. rewrite build_env_credentials. now apply range_Environ_invalid. }
  split; [exact Hbuild|].
  assert (Hstop : spawned (trace w) = false /\ exit_status w <> 0).
  { apply main_stops_at_build_env. intros role t.
    destruct (build_env_outcome role (os_Environ w) t)
      as [(ak & sk & st & ->) | Hpanic].
    - exists [EvLog (Text "invalid environ")], 1. rewrite Hbuild.
      repeat split. lia.
    - exists [EvPanic], 2. rewrite Hpanic. repeat split. lia. }
  destruct Hstop as [Hsp Hst]. repeat split; try assumption.
  intros ak sk st Hreach. unfold run.
  rewrite (main_reaches_build_env w _ Hreach). unfold bind.
  now rewrite Hbuild.
Qed.

Lemma invalid_environ_is_fatal_witness :
  (forall ak sk st t,
      build_env (credentials_of ak sk st) (os_Environ world_invalid_environ) t
        = (t ++ [EvLog (Text "invalid environ")], inr 1)) /\
  spawned (trace world_invalid_environ) = false /\
  exit_status world_invalid_environ <> 0 /\
  (forall ak sk st,
      reaches_build_env world_invalid_environ (credentials_of ak sk st) ->
      run world_invalid_environ
        = ([EvLoadDefaultConfig;
            EvAssumeRole (request world_invalid_environ
                            (session_name world_invalid_environ));
            EvLog (Text "invalid environ")], 1)).
Proof.
  apply (invalid_environ_is_fatal world_invalid_environ).
  apply Exists_cons_tl, Exists_cons_hd. reflexivity.
Defined.

(** C8. With no command on the command line the run spawns no child; once
    the credentials have been requested and the environment built, it logs
    "no commands" and exits with status 0. *)
Theorem no_commands_exits_zero (w : World) :
  flag_Args w = [] ->
  spawned (trace w) = false /\
  (forall ak sk st,
      reaches_build_env w (credentials_of ak sk st) ->
      Forall (fun e => has_eq e = true) (os_Environ w) ->
      run w = ([EvLoadDefaultConfig;
                EvAssumeRole (request w (session_name w));
                EvLog (Text "no commands")], 0)).
Proof.
  intros Hargs. split.
  - unfold trace, run.
    destruct (String.eqb_spec (roleArn w) "") as [Harn | Harn].
    + now rewrite main_role_missing.
    + rewrite main_stages by assumption.
      destruct (LoadDefaultConfig_err w); [reflexivity|]. cbn zeta.
      destruct (AssumeRole w _) as [role | err]; [| reflexivity].
      unfold bind.
      destruct (build_env_events role (os_Environ w)
                  [EvLoadDefaultConfig; EvAssumeRole (request w (session_name w))])
        as (t1 & r1 & -> & Hs1 & _).
      destruct r1 as [env | status]; cbn [fst].
      * rewrite run_command_no_args by assumption. cbn [fst].
        now rewrite !spawned_app, Hs1.
      * now rewrite spawned_app, Hs1.
  - intros ak sk st Hreach Hwf. unfold run.
    rewrite (main_reaches_build_env w _ Hreach). unfold bind.
    rewrite build_env_credentials, range_Environ_ok by assumption.
    now rewrite run_command_no_args.
Qed.

Lemma no_commands_exits_zero_witness :
  spawned (trace world_no_commands) = false /\
  (forall ak sk st,
      reaches_build_env world_no_commands (credentials_of ak sk st) ->
      Forall (fun e => has_eq e = true) (os_Environ world_no_commands) ->
      run world_no_commands
        = ([EvLoadDefaultConfig;
            EvAssumeRole (request world_no_commands (session_name world_no_commands));
            EvLog (Text "no commands")], 0)).
Proof. apply (no_commands_exits_zero world_no_commands). reflexivity. Defined.

(** The claim "the tool exits with the child's exit status" fails: the
    child runs and exits with status 3, the tool logs the error and exits
    with status 1. *)
Lemma child_status_not_forwarded :
  child world_child_exits_3 cmd_exit_3 = exec.Exited 3 /\
  run world_child_exits_3
    = ([EvLoadDefaultConfig;
        EvAssumeRole (request world_child_exits_3 (session_name world_child_exits_3));
        EvRun cmd_exit_3;
        EvLog (Err (ExitError 3))], 1) /\
  exit_status world_child_exits_3 <> 3.
Proof.
  split; [reflexivity|]. split.
  - unfold run.
    rewrite (main_reaches_build_env world_child_exits_3
               (credentials_of "AKIA" "secret" "token"))
      by (repeat split; discriminate).
    reflexivity.
  - unfold exit_status, run.
    rewrite (main_reaches_build_env world_child_exits_3
               (credentials_of "AKIA" "secret" "token"))
      by (repeat split; discriminate).
    cbn. lia.
Qed.

(** C4 (amended). When the run reaches the child-process stage and the
    child runs and exits with code [code], the tool exits with status 0 if
    [code] is 0 and with status 1, after logging the error, otherwise. *)
Theorem exit_status_after_child
  (w : World) (ak sk st name : string) (arg : list string) (code : Z) :
  reaches_build_env w (credentials_of ak sk st) ->
  Forall (fun e => has_eq e = true) (os_Environ w) ->
  flag_Args w = name :: arg ->
  child w (command name arg (env_init ak sk st ++ kept (os_Environ w)))
    = exec.Exited code ->
  In (EvRun (command name arg (env_init ak sk st ++ kept (os_Environ w))))
     (trace w) /\
  exit_status w = (if code =? 0 then 0 else 1).
Proof.
  intros Hreach Hwf Hargs Hchild. unfold trace, exit_status, run.
  rewrite (main_reaches_build_env w _ Hreach). unfold bind.
  rewrite build_env_credentials, range_Environ_ok by assumption.
  rewrite (run_command_args w _ _ name arg) by assumption.
  rewrite Hchild. cbn [exec.Run_error].
  destruct (code =? 0); cbn [fst snd]; split; try reflexivity;
    apply in_or_app; right; now left.
Qed.

Lemma exit_status_after_child_witness :
  In (EvRun (command "sh" ["-c"; "exit 3"]
               (env_init "AKIA" "secret" "token"
                ++ kept (os_Environ world_child_exits_3))))
     (trace world_child_exits_3) /\
  exit_status world_child_exits_3 = 1.
Proof.
  apply (exit_status_after_child world_child_exits_3
           "AKIA" "secret" "token" "sh" ["-c"; "exit 3"] 3).
  - repeat split; discriminate.
  - repeat constructor.
  - reflexivity.
  - reflexivity.
Defined.

(** ** Optional request parameters *)

Lemma ptr_nil_iff {T : Type} `{IsZero T} (v : T) :
  ptr v = None <-> isZero v = true.
Proof. unfold ptr. destruct (isZero v); intuition discriminate. Qed.

Lemma ptr_string (s : string) :
  ptr s = match s with EmptyString => None | String _ _ => Some s end.
Proof. now destruct s. Qed.

(** C5. In every request a run sends, an optional parameter (external ID,
    MFA serial number, MFA token code, source identity) is absent exactly
    when its flag is the empty string and otherwise carries the flag's
    value, so it is never present as an empty string; [ptr] returns nil
    exactly for the zero value. *)
Theorem empty_optionals_omitted (w : World) (input : sts.AssumeRoleInput) :
  In (EvAssumeRole input) (trace w) ->
  (sts.ExternalId input = None <-> externalID w = EmptyString) /\
  (sts.SerialNumber input = None <-> serialNumber w = EmptyString) /\
  (sts.TokenCode input = None <-> tokenCode w = EmptyString) /\
  (sts.SourceIdentity input = None <-> sourceIdentity w = EmptyString) /\
  (forall v, sts.ExternalId input = Some v -> v = externalID w /\ v <> EmptyString) /\
  (forall v, sts.SerialNumber input = Some v -> v = serialNumber w /\ v <> EmptyString) /\
  (forall v, sts.TokenCode input = Some v -> v = tokenCode w /\ v <> EmptyString) /\
  (forall v, sts.SourceIdentity input = Some v -> v = sourceIdentity w /\ v <> EmptyString) /\
  (forall (T : Type) (Z : IsZero T) (v : T), ptr v = None <-> isZero v = true).
Proof.
  intros Hin. apply trace_request in Hin. subst input.
  unfold request. cbn [sts.ExternalId sts.SerialNumber sts.TokenCode sts.SourceIdentity].
  rewrite !ptr_string.
  destruct (externalID w), (serialNumber w), (tokenCode w), (sourceIdentity w);
    repeat split; intros; try discriminate; try congruence;
    try (apply ptr_nil_iff; assumption);
    try (apply ptr_nil_iff in H; assumption).
Qed.

Lemma empty_optionals_omitted_witness :
  let input := request world_external_id (session_name world_external_id) in
  (sts.ExternalId input = None <-> externalID world_external_id = EmptyString) /\
  (sts.SerialNumber input = None <-> serialNumber world_external_id = EmptyString) /\
  (sts.TokenCode input = None <-> tokenCode world_external_id = EmptyString) /\
  (sts.SourceIdentity input = None <-> sourceIdentity world_external_id = EmptyString) /\
  (forall v, sts.ExternalId input = Some v ->
             v = externalID world_external_id /\ v <> EmptyString) /\
  (forall v, sts.SerialNumber input = Some v ->
             v = serialNumber world_external_id /\ v <> EmptyString) /\
  (forall v, sts.TokenCode input = Some v ->
             v = tokenCode world_external_id /\ v <> EmptyString) /\
  (forall v, sts.SourceIdentity input = Some v ->
             v = sourceIdentity world_external_id /\ v <> EmptyString) /\
  (forall (T : Type) (Z : IsZero T) (v : T), ptr v = None <-> isZero v = true).
Proof.
  apply (empty_optionals_omitted world_external_id
           (request world_external_id (session_name world_external_id))).
  right. left. reflexivity.
Defined.

(** ** float64 arithmetic: shifting and rounding *)

Lemma digits2_pos_bounds (m : positive) :
  2 ^ (Zpos (digits2_pos m) - 1) <= Zpos m < 2 ^ Zpos (digits2_pos m).
Proof.
  induction m as [m IH | m IH |]; cbn [digits2_pos].
  - rewrite Pos2Z.inj_succ. change (Zpos m~1) with (2 * Zpos m + 1).
    pose proof (Pos2Z.is_pos (digits2_pos m)) as Hd.
    set (d := Zpos (digits2_pos m)) in *.
    replace (Z.succ d - 1) with (Z.succ (d - 1)) by lia.
    rewrite !Z.pow_succ_r; lia.
  - rewrite Pos2Z.inj_succ. change (Zpos m~0) with (2 * Zpos m).
    pose proof (Pos2Z.is_pos (digits2_pos m)) as Hd.
    set (d := Zpos (digits2_pos m)) in *.
    replace (Z.succ d - 1) with (Z.succ (d - 1)) by lia.
    rewrite !Z.pow_succ_r; lia.
  - cbn. lia.
Qed.

Lemma digits2_pos_unique (m : positive) (k : Z) :
  2 ^ (k - 1) <= Zpos m < 2 ^ k -> Zpos (digits2_pos m) = k.
Proof.
  intros [Hlo Hhi]. pose proof (digits2_pos_bounds m) as [Dlo Dhi].
  assert (0 < k).
  { destruct (Z.ltb_spec 0 k); [assumption|].
    destruct (Z.eqb_spec k 0) as [-> | ?]; [cbn in Hhi; lia|].
    rewrite Z.pow_neg_r in Hhi by lia. lia. }
  destruct (Z.lt_trichotomy (Zpos (digits2_pos m)) k) as [Hlt | [Heq | Hgt]];
    [exfalso | assumption | exfalso].
  - assert (2 ^ Zpos (digits2_pos m) <= 2 ^ (k - 1))
      by (apply Z.pow_le_mono_r; lia). lia.
  - assert (2 ^ k <= 2 ^ (Zpos (digits2_pos m) - 1))
      by (apply Z.pow_le_mono_r; lia). lia.
Qed.

(** [iter_pos f n] applies [f] to its argument [n] times. *)
Lemma iter_pos_nat {A : Type} (f : A -> A) (n : positive) (x : A) :
  iter_pos f n x = Nat.iter (Pos.to_nat n) f x.
Proof.
  revert x. induction n as [n IH | n IH |]; intros x; cbn [iter_pos].
  - rewrite !IH, Pos2Nat.inj_xI, <- Nat.iter_add.
    replace (S (2 * Pos.to_nat n)) with (S (Pos.to_nat n + Pos.to_nat n))%nat by lia.
    now rewrite Nat.iter_succ_r.
  - rewrite !IH, Pos2Nat.inj_xO, <- Nat.iter_add. f_equal. lia.
  - reflexivity.
Qed.

(** One right shift halves the mantissa, moves its low bit to the round
    bit and folds the old round bit into the sticky bit. *)
Lemma shr_1_spec (m : Z) (r s : bool) :
  0 <= m ->
  shr_1 {| shr_m := m; shr_r := r; shr_s := s |} =
    {| shr_m := Z.div2 m; shr_r := Z.odd m; shr_s := r || s |}.
Proof. intros Hm. destruct m as [| [p | p |] | p]; try reflexivity; lia. Qed.

(** A right shift keeps the quantity represented and doubles the unit. *)
Lemma shr_1_inv (M H : Z) (mrs : shr_record) :
  0 < H -> shr_inv M H mrs -> shr_inv M (2 * H) (shr_1 mrs).
Proof.
  intros HH (low & HM & Hlow & Hs & Hm). destruct mrs as [m r s].
  cbn [shr_m shr_r shr_s] in *. rewrite shr_1_spec by assumption.
  exists ((if r then H else 0) + low). cbn [shr_m shr_r shr_s].
  pose proof (Z.div2_odd m) as Hdiv.
  assert (Hdiv2 : 0 <= Z.div2 m) by (now apply Z.div2_nonneg).
  repeat split.
  - rewrite HM. rewrite Hdiv at 1. destruct (Z.odd m), r; cbn [Z.b2z]; ring.
  - destruct r; lia.
  - destruct r; lia.
  - intros Hrs. apply orb_false_iff in Hrs as [-> ->]. rewrite Hs; reflexivity.
  - assumption.
Qed.

Lemma iter_shr_1_inv (M H : Z) (mrs : shr_record) (k : nat) :
  0 < H -> shr_inv M H mrs ->
  shr_inv M (2 ^ Z.of_nat k * H) (Nat.iter k shr_1 mrs).
Proof.
  intros HH Hinv. induction k as [| k IH].
  - cbn [Nat.iter]. now rewrite Z.pow_0_r, Z.mul_1_l.
  - cbn [Nat.iter]. rewrite Nat2Z.inj_succ, Z.pow_succ_r by lia.
    rewrite <- Z.mul_assoc. apply shr_1_inv; [|assumption].
    apply Z.mul_pos_pos; [apply Z.pow_pos_nonneg; lia | assumption].
Qed.

Lemma shr_inv_shift (M H : Z) (mrs : shr_record) (e n : Z) :
  0 < H -> 0 <= n -> shr_inv M H mrs ->
  shr_inv M (2 ^ n * H) (fst (shr mrs e n)) /\ snd (shr mrs e n) = e + n.
Proof.
  intros HH Hn Hinv. destruct n as [| p | p]; [| | lia].
  - cbn. rewrite Z.add_0_r. split; [|reflexivity].
    now destruct H.
  - cbn [shr fst snd]. split; [|reflexivity].
    rewrite iter_pos_nat. rewrite <- (positive_nat_Z p) at 1.
    now apply iter_shr_1_inv.
Qed.

(** Rounding to nearest, ties to even, moves the mantissa by at most one and
    the value by at most half a unit. *)
Lemma round_nearest_even_inv (M H : Z) (mrs : shr_record) :
  0 < H -> shr_inv M H mrs ->
  let m := round_nearest_even (shr_m mrs) (loc_of_shr_record mrs) in
  shr_m mrs <= m <= shr_m mrs + 1 /\ - H <= 2 * m * H - M <= H.
Proof.
  intros HH (low & HM & Hlow & Hs & Hm). destruct mrs as [m r s].
  cbn [shr_m shr_r shr_s] in *.
  destruct r, s; cbn [loc_of_shr_record round_nearest_even];
    try (specialize (Hs eq_refl)); try destruct (Z.even m); nia.
Qed.

(** The exponent of a normal number. *)
Lemma fexp_normal (e : Z) :
  -1074 <= e - 53 -> fexp float.prec float.emax e = e - 53.
Proof. intros He. unfold fexp, emin, float.prec, float.emax. lia. Qed.

Lemma shr_inv_bounds (M H : Z) (mrs : shr_record) :
  0 < H -> shr_inv M H mrs ->
  2 * shr_m mrs * H <= M < 2 * shr_m mrs * H + 2 * H.
Proof.
  intros HH (low & HM & Hlow & _ & _). destruct (shr_r mrs); lia.
Qed.

Lemma shr_inv_of_loc_bounds (M H : Z) (mx : Z) (lx : location) :
  0 < H -> shr_inv M H (shr_record_of_loc mx lx) ->
  2 * mx * H <= M < 2 * mx * H + 2 * H.
Proof.
  intros HH Hinv. apply shr_inv_bounds in Hinv; [|assumption].
  now destruct lx as [| []].
Qed.

(** [binary_round_aux] on a mantissa of at least 53 bits, away from
    underflow and overflow: the result is a normal number whose value, seen
    as the mantissa [m1] at exponent [ex + n], is within half a unit of the
    exact quantity [M]. *)
Lemma binary_round_aux_spec (s : bool) (mx : positive) (ex : Z) (lx : location)
  (M H : Z) :
  0 < H ->
  shr_inv M H (shr_record_of_loc (Zpos mx) lx) ->
  let n := Zpos (digits2_pos mx) - 53 in
  0 <= n -> -1074 <= ex + n -> ex + n + 1 <= 971 ->
  exists (m : positive) (e m1 : Z),
    binary_round_aux float.prec float.emax s (Zpos mx) ex lx = S754_finite s m e /\
    2 ^ 52 <= Zpos m < 2 ^ 53 /\
    ex + n <= e <= ex + n + 1 /\
    Zpos m * 2 ^ (e - (ex + n)) = m1 /\
    - (2 ^ n * H) <= 2 * m1 * (2 ^ n * H) - M <= 2 ^ n * H.
Proof.
  intros HH Hinv n Hn Hlo Hhi.
  pose proof (digits2_pos_bounds mx) as [Dlo Dhi].
  assert (HP : 0 < 2 ^ n) by (apply Z.pow_pos_nonneg; lia).
  replace (Zpos (digits2_pos mx) - 1) with (52 + n) in Dlo by lia.
  replace (Zpos (digits2_pos mx)) with (53 + n) in Dhi by lia.
  rewrite Z.pow_add_r in Dlo, Dhi by lia.
  unfold binary_round_aux, shr_fexp. cbn [Zdigits2].
  rewrite fexp_normal by lia.
  replace (Zpos (digits2_pos mx) + ex - 53 - ex) with n by lia.
  destruct (shr_inv_shift M H (shr_record_of_loc (Zpos mx) lx) ex n HH Hn Hinv)
    as [Hinv' He'].
  destruct (shr (shr_record_of_loc (Zpos mx) lx) ex n) as [mrs' e'].
  cbn [fst snd] in Hinv', He'. subst e'.
  assert (HH' : 0 < 2 ^ n * H) by now apply Z.mul_pos_pos.
  pose proof (shr_inv_of_loc_bounds M H _ lx HH Hinv) as Hb0.
  pose proof (shr_inv_bounds M _ mrs' HH' Hinv') as Hb1.
  destruct (round_nearest_even_inv M _ mrs' HH' Hinv') as [Hm1 Herr].
  set (m1 := round_nearest_even (shr_m mrs') (loc_of_shr_record mrs')) in *.
  set (m' := shr_m mrs') in *.
  assert (Hm' : 2 ^ 52 <= m' < 2 ^ 53).
  { set (P := 2 ^ n) in *. split; nia. }
  destruct (Z.eq_dec m1 (2 ^ 53)) as [Hcarry | Hnocarry].
  - (* the rounded mantissa reached 2^53: one more shift *)
    rewrite Hcarry in *.
    change (2 ^ 53) with (Zpos (2 ^ 53)%positive). cbn [Zdigits2].
    change (Zpos (digits2_pos (2 ^ 53))) with 54.
    rewrite fexp_normal by lia.
    replace (54 + (ex + n) - 53 - (ex + n)) with 1 by lia.
    cbn [shr shr_record_of_loc iter_pos shr_1 shr_m].
    replace (ex + n + 1 <=? float.emax - float.prec) with true
      by (symmetry; apply Z.leb_le; unfold float.emax, float.prec; lia).
    exists (2 ^ 52)%positive, (ex + n + 1), (2 ^ 53).
    replace (ex + n + 1 - (ex + n)) with 1 by lia.
    repeat split; try lia; try reflexivity.
  - assert (Hm1' : 2 ^ 52 <= m1 < 2 ^ 53) by lia.
    destruct m1 as [| p1 | p1] eqn:Ep1; try (cbn in Hm1'; lia).
    cbn [Zdigits2].
    rewrite (digits2_pos_unique p1 53) by (cbn; lia).
    rewrite fexp_normal by lia.
    replace (53 + (ex + n) - 53 - (ex + n)) with 0 by lia.
    cbn [shr shr_record_of_loc shr_m].
    replace (ex + n <=? float.emax - float.prec) with true
      by (symmetry; apply Z.leb_le; unfold float.emax, float.prec; lia).
    exists p1, (ex + n), (Zpos p1).
    rewrite Z.sub_diag, Z.pow_0_r, Z.mul_1_r.
    repeat split; try lia.
Qed.

(** Powers of two. *)
Lemma pow2_pos (n : Z) : 0 <= n -> 0 < 2 ^ n.
Proof. intros Hn. apply Z.pow_pos_nonneg; lia. Qed.

Lemma pow2_split (a b : Z) : 0 <= a <= b -> 2 ^ b = 2 ^ a * 2 ^ (b - a).
Proof. intros Hab. rewrite <- Z.pow_add_r by lia. f_equal. lia. Qed.

Lemma pow2_lt_inv (a b : Z) : 0 <= b -> 2 ^ a < 2 ^ b -> a < b.
Proof.
  intros Hb Hlt. destruct (Z.lt_ge_cases a b) as [? | Hge]; [assumption|].
  assert (2 ^ b <= 2 ^ a) by (apply Z.pow_le_mono_r; lia). lia.
Qed.

Lemma digits2_pos_range (m : positive) (a b : Z) :
  0 <= a -> 0 <= b -> 2 ^ a <= Zpos m < 2 ^ b ->
  a < Zpos (digits2_pos m) <= b.
Proof.
  intros Ha Hb [Hlo Hhi]. pose proof (digits2_pos_bounds m) as [Dlo Dhi].
  pose proof (Pos2Z.is_pos (digits2_pos m)) as Hd.
  split.
  - apply pow2_lt_inv; lia.
  - assert (Zpos (digits2_pos m) - 1 < b) by (apply pow2_lt_inv; lia). lia.
Qed.

(** [shl_align] multiplies the mantissa by the power of two it takes from
    the exponent. *)
Lemma iter_xO_pow (m d : positive) :
  Zpos (Pos.iter xO m d) = Zpos m * 2 ^ Zpos d.
Proof.
  rewrite (Pos.iter_swap_gen _ _ Zpos xO (Z.mul 2)) by reflexivity.
  rewrite <- Z.shiftl_mul_pow2 by lia. reflexivity.
Qed.

Lemma shl_align_spec (m : positive) (e e' : Z) :
  e' <= e ->
  exists m', shl_align m e e' = (m', e') /\ Zpos m' = Zpos m * 2 ^ (e - e').
Proof.
  intros Hle. unfold shl_align. destruct (e' - e) as [| d | d] eqn:Hd; [| lia |].
  - assert (e' = e) by lia. subst e'. exists m.
    now rewrite Z.sub_diag, Z.mul_1_r.
  - exists (Pos.iter xO m d). split; [reflexivity|].
    rewrite iter_xO_pow. f_equal. f_equal. lia.
Qed.

Lemma shl_align_id (m : positive) (e e' : Z) :
  e <= e' -> shl_align m e e' = (m, e).
Proof.
  intros Hle. unfold shl_align. destruct (e' - e) eqn:Hd; try reflexivity. lia.
Qed.

(** [float64(n)] for [0 < |n| < 2^53] is exact: a 53-bit mantissa and the
    matching exponent. *)
Lemma binary_round_int (s : bool) (p : positive) :
  Zpos p < 2 ^ 53 ->
  exists (m : positive) (e : Z),
    binary_round float.prec float.emax s p 0 = S754_finite s m e /\
    -52 <= e <= 0 /\
    Zpos m = Zpos p * 2 ^ (- e) /\
    2 ^ 52 <= Zpos m < 2 ^ 53.
Proof.
  intros Hp. unfold binary_round.
  pose proof (digits2_pos_bounds p) as [Dlo Dhi].
  assert (HD : 0 < Zpos (digits2_pos p) <= 53).
  { split; [apply Pos2Z.is_pos|].
    apply (digits2_pos_range p 0 53); try lia. }
  set (D := Zpos (digits2_pos p)) in *.
  rewrite Z.add_0_r, fexp_normal by lia.
  destruct (shl_align_spec p 0 (D - 53)) as (mz & -> & Hmz); [lia|].
  replace (0 - (D - 53)) with (53 - D) in Hmz by lia.
  assert (Hmz' : 2 ^ 52 <= Zpos mz < 2 ^ 53).
  { rewrite Hmz, (pow2_split (D - 1) 52), (pow2_split D 53) by lia.
    replace (52 - (D - 1)) with (53 - D) by lia.
    assert (0 < 2 ^ (53 - D)) by (apply pow2_pos; lia). nia. }
  destruct (binary_round_aux_spec s mz (D - 53) loc_Exact (2 * Zpos mz) 1)
    as (m & e & m1 & -> & Hm & He & Hm1 & Herr).
  - lia.
  - exists 0. cbn [shr_record_of_loc shr_m shr_r shr_s]. repeat split; lia.
  - rewrite (digits2_pos_unique mz 53) by (cbn; lia). lia.
  - rewrite (digits2_pos_unique mz 53) by (cbn; lia). lia.
  - rewrite (digits2_pos_unique mz 53) by (cbn; lia). lia.
  - rewrite (digits2_pos_unique mz 53) in * by (cbn; lia).
    replace (D - 53 + (53 - 53)) with (D - 53) in * by lia.
    change (2 ^ (53 - 53)) with 1 in Herr.
    assert (Hmm : m1 = Zpos mz) by lia. rewrite Hmm in Hm1. clear Hmm Herr.
    assert (e = D - 53).
    { destruct (Z.eq_dec e (D - 53)) as [? | Hne]; [assumption|].
      replace (e - (D - 53)) with 1 in Hm1 by lia. cbn in Hm1. lia. }
    subst e. rewrite Z.sub_diag, Z.mul_1_r in Hm1.
    exists m, (D - 53). repeat split; try lia.
    rewrite Hm1, Hmz. f_equal. f_equal. lia.
Qed.

(** The quotient mantissa, exponent and remainder location computed by
    [SFdiv_core_binary] for two 53-bit mantissas. *)
Lemma SFdiv_core_binary_normal (m1 m2 : positive) (e1 e2 : Z) :
  Zpos (digits2_pos m1) = 53 -> Zpos (digits2_pos m2) = 53 ->
  -1074 <= e1 - e2 - 53 ->
  SFdiv_core_binary float.prec float.emax (Zpos m1) e1 (Zpos m2) e2 =
    (Zpos m1 * 2 ^ 53 / Zpos m2, e1 - e2 - 53,
     new_location (Zpos m2) (Zpos m1 * 2 ^ 53 mod Zpos m2)).
Proof.
  intros H1 H2 He. unfold SFdiv_core_binary. cbn [Zdigits2].
  rewrite H1, H2.
  replace (53 + e1 - (53 + e2)) with (e1 - e2) by lia.
  rewrite fexp_normal by lia. rewrite Z.min_l by lia.
  replace (e1 - e2 - (e1 - e2 - 53)) with 53 by lia.
  rewrite Z.shiftl_mul_pow2 by lia.
  unfold Z.div, Z.modulo.
  now destruct (Z.div_eucl (Zpos m1 * 2 ^ 53) (Zpos m2)).
Qed.

Lemma of_int_billion :
  float.of_int 1000000000 = S754_finite false billion (-23).
Proof. reflexivity. Qed.

(** The location of the remainder [r] of a division by [billion] describes
    the dividend [billion * q + r] in half-units of [billion / 2]. *)
Lemma new_location_inv (q r : Z) :
  0 <= q -> 0 <= r < Zpos billion ->
  shr_inv (Zpos billion * q + r) 4194304000000000
    (shr_record_of_loc q (new_location (Zpos billion) r)).
Proof.
  intros Hq Hr. unfold new_location.
  change (Z.even (Zpos billion)) with true. unfold new_location_even.
  unfold billion in *.
  destruct (Z.eqb_spec r 0) as [-> | Hr0].
  - exists 0. cbn [shr_record_of_loc shr_m shr_r shr_s]. repeat split; lia.
  - unfold shr_inv.
    destruct (Z.compare_spec (2 * r) 8388608000000000) as [Heq | Hlt | Hgt];
      cbn [shr_record_of_loc shr_m shr_r shr_s].
    + exists 0. repeat split; lia.
    + exists r. repeat split; try lia; discriminate.
    + exists (r - 4194304000000000). repeat split; try lia; discriminate.
Qed.

(** The fraction [float64(nsec)/1e9] for [0 < nsec < 10^9]: a normal
    number below [1 - 2^-30]. *)
Lemma div_nsec (s : bool) (p : positive) :
  Zpos p < 1000000000 ->
  exists (mf : positive) (ef : Z),
    float.div (binary_round float.prec float.emax s p 0) (float.of_int 1000000000)
      = S754_finite s mf ef /\
    -82 <= ef <= -53 /\
    Zpos mf * 2 ^ 30 < (2 ^ 30 - 1) * 2 ^ (- ef).
Proof.
  intros Hp.
  destruct (binary_round_int s p) as (m1 & e1 & -> & He1 & Hm1 & Hm1b); [lia|].
  rewrite of_int_billion. unfold float.div, SFdiv.
  assert (He1' : e1 <= -23).
  { destruct (Z.le_gt_cases e1 (-23)) as [? | Hgt]; [assumption|].
    assert (2 ^ (- e1) <= 2 ^ 22) by (apply Z.pow_le_mono_r; lia).
    assert (0 < 2 ^ (- e1)) by (apply pow2_pos; lia).
    change (2 ^ 52) with (2 ^ 30 * 2 ^ 22) in Hm1b. nia. }
  rewrite SFdiv_core_binary_normal;
    [| apply digits2_pos_unique; cbn; lia | reflexivity | lia].
  set (M := Zpos m1 * 2 ^ 53).
  pose proof (Z.div_mod M (Zpos billion) ltac:(discriminate)) as HM.
  pose proof (Z.mod_pos_bound M (Zpos billion) ltac:(reflexivity)) as Hr.
  set (q := M / Zpos billion) in *. set (r := M mod Zpos billion) in *.
  assert (Hq : 2 ^ 52 <= q < 2 ^ 54).
  { unfold billion in *. subst M. split.
    - apply Z.div_le_lower_bound; lia.
    - apply Z.div_lt_upper_bound; lia. }
  destruct q as [| pq | pq] eqn:Eq; try (cbn in Hq; lia).
  assert (HD : 53 <= Zpos (digits2_pos pq) <= 54)
    by (pose proof (digits2_pos_range pq 52 54); lia).
  destruct (binary_round_aux_spec (xorb s false) pq (e1 - -23 - 53)
              (new_location (Zpos billion) r) M 4194304000000000)
    as (m & e & mr & -> & Hm & He & Hmr & Herr).
  - lia.
  - rewrite HM. apply new_location_inv; lia.
  - lia.
  - lia.
  - lia.
  - rewrite xorb_false_r. exists m, e.
    set (n := Zpos (digits2_pos pq) - 53) in *.
    set (e' := e1 - -23 - 53) in *.
    assert (Hn : n = 0 \/ n = 1) by lia.
    assert (He' : e' = e1 - 30) by (unfold e'; lia).
    clearbody n e'. clear HD.
    assert (HP : 2 ^ n = 1 \/ 2 ^ n = 2)
      by (destruct Hn as [-> | ->]; [left | right]; reflexivity).
    (* the value as a multiple of 2^e' *)
    set (X := mr * 2 ^ n).
    assert (HX : Zpos m * 2 ^ (e - e') = X).
    { unfold X. rewrite <- Hmr, <- Z.mul_assoc, <- Z.pow_add_r by lia.
      f_equal. f_equal. lia. }
    assert (HXM : X * Zpos billion <= M + Zpos billion).
    { unfold X, billion in *. set (P := 2 ^ n) in *. nia. }
    set (T := 2 ^ (- e')).
    assert (HT : 2 ^ 53 <= T) by (apply Z.pow_le_mono_r; lia).
    assert (HMT : M = Zpos p * T * 2 ^ 23).
    { unfold M, T. rewrite Hm1, He'.
      rewrite <- !Z.mul_assoc, <- !Z.pow_add_r by lia.
      f_equal. f_equal. lia. }
    assert (HXT : X * 2 ^ 30 < (2 ^ 30 - 1) * T).
    { unfold billion in *. rewrite HMT in HXM.
      change (2 ^ 23) with 8388608 in HXM.
      change (2 ^ 30) with 1073741824. change (2 ^ 53) with 9007199254740992 in HT.
      nia. }
    assert (HTe : T = 2 ^ (- e) * 2 ^ (e - e')).
    { unfold T. rewrite <- Z.pow_add_r by lia. f_equal. lia. }
    assert (Hpe : 0 < 2 ^ (e - e')) by (apply pow2_pos; lia).
    assert (Hval : Zpos m * 2 ^ 30 < (2 ^ 30 - 1) * 2 ^ (- e)).
    { rewrite <- HX, HTe in HXT.
      apply (Z.mul_lt_mono_pos_r (2 ^ (e - e'))); [assumption|].
      replace (Zpos m * 2 ^ 30 * 2 ^ (e - e'))
        with (Zpos m * 2 ^ (e - e') * 2 ^ 30) by ring.
      replace ((2 ^ 30 - 1) * 2 ^ (- e) * 2 ^ (e - e'))
        with ((2 ^ 30 - 1) * (2 ^ (- e) * 2 ^ (e - e'))) by ring.
      exact HXT. }
    assert (He53 : e <= -53).
    { assert (52 < - e); [|lia]. apply pow2_lt_inv; [lia|].
      set (U := 2 ^ (- e)) in *.
      change (2 ^ 30) with 1073741824 in Hval.
      change (2 ^ 52) with 4503599627370496 in *. lia. }
    repeat split; try assumption; lia.
Qed.

(** Two integers within half a unit of each other, one of them a multiple
    of the unit. *)
Lemma half_unit_lower (P Y : Z) : 0 < P -> - P <= 2 * Y * P -> 0 <= Y.
Proof. intros HP HY. nia. Qed.

Lemma half_unit_upper (P Y : Z) : 0 < P -> 2 * Y * P < 0 -> Y < 0.
Proof. intros HP HY. nia. Qed.

(** Adding a whole number of seconds below [2^24] and a fraction below
    [1 - 2^-30] gives a float whose integer part is that whole number. *)
Lemma add_sec_fraction (s : bool) (sec mf : positive) (ef : Z) :
  Zpos sec < 2 ^ 24 ->
  -82 <= ef <= -53 ->
  Zpos mf * 2 ^ 30 < (2 ^ 30 - 1) * 2 ^ (- ef) ->
  float.truncate
    (float.add (binary_round float.prec float.emax s sec 0) (S754_finite s mf ef))
  = Some (cond_Zopp s (Zpos sec)).
Proof.
  intros Hsec Hef Hfrac.
  destruct (binary_round_int s sec) as (ms & es & -> & Hes & Hms & Hmsb);
    [change (2 ^ 53) with (2 ^ 24 * 2 ^ 29); lia|].
  unfold float.add, SFadd. rewrite Z.min_r by lia.
  destruct (shl_align_spec ms es ef) as (ms' & -> & Hms'); [lia|].
  rewrite (shl_align_id mf ef ef) by lia. cbn [fst].
  set (A := 2 ^ (- ef)) in *.
  assert (HA : 0 < A) by (apply pow2_pos; lia).
  assert (HsecA : Zpos ms' = Zpos sec * A).
  { rewrite Hms', Hms. unfold A.
    rewrite <- Z.mul_assoc, <- Z.pow_add_r by lia. f_equal. f_equal. lia. }
  assert (Hsum : cond_Zopp s (Zpos ms') + cond_Zopp s (Zpos mf)
                 = cond_Zopp s (Zpos (ms' + mf))) by now destruct s.
  rewrite Hsum.
  assert (Hnorm : binary_normalize float.prec float.emax
                    (cond_Zopp s (Zpos (ms' + mf))) ef false
                  = binary_round float.prec float.emax s (ms' + mf) ef)
    by now destruct s.
  rewrite Hnorm. clear Hsum Hnorm. unfold binary_round.
  assert (Hmf : 2 * Zpos mf < 2 * A).
  { change (2 ^ 30) with 1073741824 in Hfrac. lia. }
  assert (HA53 : 2 ^ 53 <= A) by (apply Z.pow_le_mono_r; lia).
  assert (Htot : Zpos (ms' + mf) = Zpos sec * A + Zpos mf)
    by (rewrite Pos2Z.inj_add; lia).
  assert (HD : 53 < Zpos (digits2_pos (ms' + mf)) <= 24 - ef).
  { apply digits2_pos_range; try lia. rewrite Htot. split; [nia|].
    replace (24 - ef) with (24 + - ef) by lia.
    rewrite Z.pow_add_r by lia. fold A. nia. }
  set (D := Zpos (digits2_pos (ms' + mf))) in *.
  rewrite fexp_normal by lia.
  rewrite shl_align_id by lia.
  destruct (binary_round_aux_spec s (ms' + mf) ef loc_Exact
              (2 * Zpos (ms' + mf)) 1)
    as (m & e & m1 & -> & Hm & He & Hm1 & Herr); fold D; try lia.
  { exists 0. cbn [shr_record_of_loc shr_m shr_r shr_s]. repeat split; lia. }
  fold D in He, Hm1, Herr.
  set (n := D - 53) in *.
  set (P := 2 ^ n) in *.
  assert (HP : 0 < P) by (apply pow2_pos; lia).
  set (Q := 2 ^ (- (ef + n))).
  assert (HQ : 2 ^ 29 <= Q) by (apply Z.pow_le_mono_r; lia).
  assert (HAPQ : A = P * Q).
  { unfold A, P, Q. rewrite <- Z.pow_add_r by lia. f_equal. lia. }
  rewrite Z.mul_1_r in Herr. rewrite Htot in Herr.
  assert (Hlow : Zpos sec * Q <= m1).
  { assert (0 <= m1 - Zpos sec * Q); [|lia].
    apply (half_unit_lower P); [assumption|].
    replace (2 * (m1 - Zpos sec * Q) * P)
      with (2 * m1 * P - 2 * (Zpos sec * (P * Q))) by ring.
    rewrite <- HAPQ. lia. }
  assert (Hupp : m1 < (Zpos sec + 1) * Q).
  { assert (m1 - (Zpos sec + 1) * Q < 0); [|lia].
    apply (half_unit_upper P); [assumption|].
    replace (2 * (m1 - (Zpos sec + 1) * Q) * P)
      with (2 * m1 * P - 2 * (Zpos sec * (P * Q)) - 2 * (P * Q)) by ring.
    rewrite <- HAPQ.
    assert (2 * Zpos mf + P < 2 * A); [|lia].
    change (2 ^ 30) with 1073741824 in Hfrac.
    change (2 ^ 29) with 536870912 in HQ.
    assert (536870912 * P <= A) by (rewrite HAPQ; nia).
    lia. }
  cbn [float.truncate]. replace (0 <=? e) with false
    by (symmetry; apply Z.leb_gt; lia).
  do 2 f_equal.
  assert (HQe : Q = 2 ^ (- e) * 2 ^ (e - (ef + n))).
  { unfold Q. rewrite <- Z.pow_add_r by lia. f_equal. lia. }
  assert (Hc : 0 < 2 ^ (e - (ef + n))) by (apply pow2_pos; lia).
  assert (Hdiv : Zpos m / 2 ^ (- e) = m1 / Q).
  { rewrite <- Hm1, HQe. symmetry. apply Z.div_mul_cancel_r; lia. }
  rewrite Hdiv. symmetry.
  apply (Z.div_unique m1 Q (Zpos sec) (m1 - Zpos sec * Q)); [|ring].
  left. lia.
Qed.

Lemma of_int_signed (s : bool) (p : positive) :
  float.of_int (cond_Zopp s (Zpos p)) = binary_round float.prec float.emax s p 0.
Proof. now destruct s. Qed.

(** The integer part of a fraction below one is zero. *)
Lemma truncate_fraction (s : bool) (mf : positive) (ef : Z) :
  -82 <= ef <= -53 ->
  Zpos mf * 2 ^ 30 < (2 ^ 30 - 1) * 2 ^ (- ef) ->
  float.truncate (S754_finite s mf ef) = Some 0.
Proof.
  intros Hef Hfrac. cbn [float.truncate].
  replace (0 <=? ef) with false by (symmetry; apply Z.leb_gt; lia).
  rewrite Z.div_small.
  - now destruct s.
  - assert (0 < 2 ^ (- ef)) by (apply pow2_pos; lia).
    change (2 ^ 30) with 1073741824 in Hfrac. lia.
Qed.

(** The integer part of [float64(sec)] is [sec]. *)
Lemma truncate_whole (s : bool) (sec : positive) :
  Zpos sec < 2 ^ 24 ->
  float.truncate (binary_round float.prec float.emax s sec 0)
  = Some (cond_Zopp s (Zpos sec)).
Proof.
  intros Hsec.
  destruct (binary_round_int s sec) as (ms & es & -> & Hes & Hms & Hmsb);
    [change (2 ^ 53) with (2 ^ 24 * 2 ^ 29); lia|].
  assert (Hes' : es < 0).
  { destruct (Z.eq_dec es 0) as [-> | ?]; [|lia].
    cbn in Hms, Hmsb, Hsec. lia. }
  cbn [float.truncate].
  replace (0 <=? es) with false by (symmetry; apply Z.leb_gt; lia).
  rewrite Hms, Z.div_mul; [reflexivity|].
  assert (0 < 2 ^ (- es)) by (apply pow2_pos; lia). lia.
Qed.

(** The integer part of [Seconds()] for a duration of magnitude [d] below
    [2^24] seconds and either sign. *)
Lemma Seconds_truncate (s : bool) (d : Z) :
  0 <= d < 2 ^ 24 * time.Second ->
  float.truncate (time.Seconds (cond_Zopp s d))
  = Some (cond_Zopp s (d / time.Second)).
Proof.
  unfold time.Second, time.Nanosecond. rewrite Z.mul_1_r. intros Hd.
  unfold time.Seconds, time.Second, time.Nanosecond. rewrite Z.mul_1_r.
  assert (Hquot : Z.quot (cond_Zopp s d) 1000000000
                  = cond_Zopp s (d / 1000000000)).
  { destruct s; cbn [cond_Zopp].
    - rewrite Z.quot_opp_l, Z.quot_div_nonneg by lia. reflexivity.
    - apply Z.quot_div_nonneg; lia. }
  assert (Hrem : Z.rem (cond_Zopp s d) 1000000000
                 = cond_Zopp s (d mod 1000000000)).
  { destruct s; cbn [cond_Zopp].
    - rewrite Z.rem_opp_l, Z.rem_mod_nonneg by lia. reflexivity.
    - apply Z.rem_mod_nonneg; lia. }
  rewrite Hquot, Hrem.
  pose proof (Z.mod_pos_bound d 1000000000 ltac:(lia)) as Hnsec.
  assert (Hsec : 0 <= d / 1000000000 < 2 ^ 24).
  { split; [apply Z.div_pos; lia | apply Z.div_lt_upper_bound; lia]. }
  destruct (d / 1000000000) as [| sec | sec] eqn:Esec; [| | lia];
    destruct (d mod 1000000000) as [| nsec | nsec] eqn:Ensec; try lia.
  - now destruct s.
  - rewrite of_int_signed.
    destruct (div_nsec s nsec) as (mf & ef & -> & Hef & Hfrac); [lia|].
    replace (float.of_int (cond_Zopp s 0)) with (S754_zero false)
      by now destruct s.
    cbn [float.add SFadd]. unfold float.add, SFadd.
    rewrite truncate_fraction by assumption. now destruct s.
  - rewrite of_int_signed.
    replace (float.of_int (cond_Zopp s 0)) with (S754_zero false)
      by now destruct s.
    rewrite of_int_billion.
    replace (float.div (S754_zero false) (S754_finite false billion (-23)))
      with (S754_zero false) by reflexivity.
    destruct (binary_round_int s sec) as (ms & es & Hbr & _);
      [change (2 ^ 53) with (2 ^ 24 * 2 ^ 29); lia|].
    pose proof (truncate_whole s sec ltac:(lia)) as Htr.
    rewrite Hbr in *. exact Htr.
  - rewrite !of_int_signed.
    destruct (div_nsec s nsec) as (mf & ef & -> & Hef & Hfrac); [lia|].
    apply add_sec_fraction; lia.
Qed.

(** [int32(duration.Seconds())] for [|d| < 2^24 s] is [d / Second] as Go
    computes it, truncated toward zero. *)
Lemma to_int32_Seconds (u : float64 -> Z) (d : time.Duration) :
  Z.abs d < 2 ^ 24 * time.Second ->
  float.to_int32 u (time.Seconds d) = Z.quot d time.Second.
Proof.
  intros Hd.
  assert (Hsplit : d = cond_Zopp (d <? 0) (Z.abs d)).
  { destruct (Z.ltb_spec d 0); cbn [cond_Zopp]; lia. }
  assert (Hq : Z.quot d time.Second
               = cond_Zopp (d <? 0) (Z.abs d / time.Second)).
  { unfold time.Second, time.Nanosecond in *.
    destruct (Z.ltb_spec d 0); cbn [cond_Zopp].
    - rewrite <- Z.quot_div_nonneg, <- Z.quot_opp_l by lia. f_equal. lia.
    - rewrite Z.abs_eq by lia. apply Z.quot_div_nonneg; lia. }
  unfold float.to_int32. rewrite Hsplit at 1.
  rewrite Seconds_truncate by lia. rewrite <- Hq.
  assert (Hrange : Z.abs (Z.quot d time.Second) < 2 ^ 24).
  { rewrite Hq. unfold time.Second, time.Nanosecond in *.
    assert (0 <= Z.abs d / (1000000000 * 1) < 2 ^ 24).
    { split; [apply Z.div_pos; lia | apply Z.div_lt_upper_bound; lia]. }
    destruct (d <? 0); cbn [cond_Zopp]; lia. }
  unfold in_int32, int32_min, int32_max.
  replace (- 2 ^ 31 <=? Z.quot d time.Second) with true
    by (symmetry; apply Z.leb_le; change (2 ^ 24) with 16777216 in Hrange;
        change (2 ^ 31) with 2147483648; lia).
  replace (Z.quot d time.Second <=? 2 ^ 31 - 1) with true
    by (symmetry; apply Z.leb_le; change (2 ^ 24) with 16777216 in Hrange;
        change (2 ^ 31) with 2147483648; lia).
  reflexivity.
Qed.

(** ** The duration sent *)

(** The claim "the duration sent is the whole-second truncation of the
    configured duration" fails for long durations: 16777216.999999999 s has
    16777216 whole seconds, but [Seconds()] rounds the sum
    [16777216 + 0.999999999] to the float64 16777217.0, and 16777217 is
    sent. *)
Lemma long_duration_rounds_up :
  In (EvAssumeRole (request world_long_duration (session_name world_long_duration)))
     (trace world_long_duration) /\
  Z.quot (duration world_long_duration) time.Second = 16777216 /\
  in_int32 16777216 = true /\
  sts.DurationSeconds
    (request world_long_duration (session_name world_long_duration))
  = Some 16777217 /\
  sts.DurationSeconds
    (request world_long_duration (session_name world_long_duration))
  <> ptr (Z.quot (duration world_long_duration) time.Second).
Proof.
  split; [right; left; reflexivity|].
  split; [reflexivity|]. split; [reflexivity|].
  assert (Hsent : sts.DurationSeconds
                    (request world_long_duration (session_name world_long_duration))
                  = Some 16777217) by (vm_compute; reflexivity).
  split; [exact Hsent|]. rewrite Hsent. discriminate.
Qed.

(** C9 (amended). For a configured duration [d] of magnitude below [2^24]
    seconds, the request carries [ptr] of [d / Second] truncated toward
    zero, a value that fits an int32; when the magnitude is under one second
    that value is 0 and DurationSeconds is absent, and from one second on
    it is present with the whole number of seconds. *)
Theorem duration_seconds_sent (w : World) (input : sts.AssumeRoleInput) :
  In (EvAssumeRole input) (trace w) ->
  Z.abs (duration w) < 2 ^ 24 * time.Second ->
  sts.DurationSeconds input = ptr (Z.quot (duration w) time.Second) /\
  in_int32 (Z.quot (duration w) time.Second) = true /\
  (Z.abs (duration w) < time.Second -> sts.DurationSeconds input = None) /\
  (time.Second <= Z.abs (duration w) ->
   sts.DurationSeconds input = Some (Z.quot (duration w) time.Second)).
Proof.
  intros Hin Hd. apply trace_request in Hin. subst input.
  unfold request. cbn [sts.DurationSeconds].
  rewrite to_int32_Seconds by assumption.
  unfold time.Second, time.Nanosecond in *. rewrite Z.mul_1_r in *.
  set (q := Z.quot (duration w) 1000000000).
  assert (Hq : Z.abs q < 2 ^ 24).
  { unfold q. rewrite <- Z.quot_abs by lia.
    rewrite Z.quot_div_nonneg by lia. cbn [Z.abs].
    apply Z.div_lt_upper_bound; lia. }
  assert (Hzero : q = 0 <-> Z.abs (duration w) < 1000000000).
  { unfold q. rewrite Z.quot_small_iff by lia.
    change (Z.abs 1000000000) with 1000000000. reflexivity. }
  change (2 ^ 24) with 16777216 in Hq.
  split; [reflexivity|]. split; [| split].
  - unfold in_int32, int32_min, int32_max. change (2 ^ 31) with 2147483648.
    apply andb_true_iff. split; apply Z.leb_le; lia.
  - intros Hsmall. apply ptr_nil_iff. apply Z.eqb_eq. now apply Hzero.
  - intros Hlarge. unfold ptr, isZero, IsZero_int32.
    destruct (Z.eqb_spec q 0) as [Hq0 | _]; [|reflexivity].
    apply Hzero in Hq0. lia.
Qed.

Lemma duration_seconds_sent_witness :
  sts.DurationSeconds (request world_sub_second (session_name world_sub_second))
    = ptr (Z.quot (duration world_sub_second) time.Second) /\
  in_int32 (Z.quot (duration world_sub_second) time.Second) = true /\
  (Z.abs (duration world_sub_second) < time.Second ->
   sts.DurationSeconds (request world_sub_second (session_name world_sub_second))
     = None) /\
  (time.Second <= Z.abs (duration world_sub_second) ->
   sts.DurationSeconds (request world_sub_second (session_name world_sub_second))
     = Some (Z.quot (duration world_sub_second) time.Second)).
Proof.
  apply (duration_seconds_sent world_sub_second
           (request world_sub_second (session_name world_sub_second))).
  - right. left. reflexivity.
  - reflexivity.
Defined.

(** * Further properties of [main.go] *)

(** ** [strings.Cut] as the program uses it *)

(** X1. Cutting an entry at ["="] splits it at the first ['=']: the key has
    no ['='] and key, ['='] and value put together give the entry back; an
    entry without ['='] is returned whole with [found = false]. *)
Theorem Cut_splits_at_first_eq (e : string) :
  (has_eq e = true ->
   exists k v, strings.Cut e "=" = (k, v, true) /\
               e = (k ++ String "=" v)%string /\ has_eq k = false) /\
  (has_eq e = false -> strings.Cut e "=" = (e, EmptyString, false)).
Proof.
  induction e as [| c e [IHt IHf]]; split; intros He; try discriminate.
  - reflexivity.
  - rewrite Cut_eq_cons. unfold has_eq in *. cbn [strings.ContainsByte] in He.
    destruct (Ascii.eqb_spec c "=") as [-> | Hc].
    + exists EmptyString, e. repeat split.
    + cbn [orb] in He. destruct (IHt He) as (k & v & -> & -> & Hk).
      exists (String c k), v. repeat split.
      cbn [strings.ContainsByte]. apply orb_false_iff. split; [|assumption].
      now apply Ascii.eqb_neq.
  - rewrite Cut_eq_cons. unfold has_eq in *. cbn [strings.ContainsByte] in He.
    apply orb_false_iff in He as [-> He]. now rewrite (IHf He).
Qed.

(** X2. Each injected entry cuts back into its fixed name and exactly the
    credential string it was built from, whatever bytes the credential
    contains (a session token may itself contain ['=']). *)
Theorem injected_entries_parse_back (ak sk st : string) :
  map (fun e => strings.Cut e "=") (env_init ak sk st)
  = [ ("AWS_ACCESS_KEY_ID", ak, true);
      ("AWS_SECRET_ACCESS_KEY", sk, true);
      ("AWS_SESSION_TOKEN", st, true) ].
Proof.
  unfold env_init. cbn [map].
  change (strings.Cut ("AWS_ACCESS_KEY_ID" ++ String "=" ak) "="
          :: strings.Cut ("AWS_SECRET_ACCESS_KEY" ++ String "=" sk) "="
          :: strings.Cut ("AWS_SESSION_TOKEN" ++ String "=" st) "=" :: nil
          = [ ("AWS_ACCESS_KEY_ID", ak, true);
              ("AWS_SECRET_ACCESS_KEY", sk, true);
              ("AWS_SESSION_TOKEN", st, true) ]).
  now rewrite !Cut_key_value.
Qed.

(** ** The environment of a nested run *)

Lemma kept_app (l1 l2 : list string) : kept (l1 ++ l2) = kept l1 ++ kept l2.
Proof. apply filter_app. Qed.

Lemma kept_env_init (ak sk st : string) : kept (env_init ak sk st) = [].
Proof.
  assert (Hall : forall e, In e (env_init ak sk st) -> denylisted (key e) = true).
  { intros e He. apply injected_denylisted.
    rewrite <- (keys_env_init ak sk st). now apply in_map. }
  unfold kept. induction (env_init ak sk st) as [| e l IH]; [reflexivity|].
  cbn [filter]. rewrite (Hall e (or_introl eq_refl)). cbn [negb].
  apply IH. intros e' He'. apply Hall. now right.
Qed.

Lemma kept_kept (environ : list string) : kept (kept environ) = kept environ.
Proof.
  apply kept_all. intros e He. now apply kept_spec in He.
Qed.

Lemma has_eq_env_init (ak sk st : string) :
  Forall (fun e => has_eq e = true) (env_init ak sk st).
Proof.
  unfold env_init.
  apply Forall_cons; [apply (has_eq_entry "AWS_ACCESS_KEY_ID" ak)|].
  apply Forall_cons; [apply (has_eq_entry "AWS_SECRET_ACCESS_KEY" sk)|].
  apply Forall_cons; [apply (has_eq_entry "AWS_SESSION_TOKEN" st)|].
  apply Forall_nil.
Qed.

Lemma has_eq_kept (environ : list string) :
  Forall (fun e => has_eq e = true) environ ->
  Forall (fun e => has_eq e = true) (kept environ).
Proof.
  intros Hwf. apply Forall_forall. intros e He.
  apply kept_spec in He as [He _]. revert e He. now apply Forall_forall.
Qed.

(** X3. Building the environment again from an environment this program
    built (a nested run) gives the same result as building it from the
    original parent: the earlier credentials are dropped, the new ones
    injected, and the other entries kept. *)
Theorem nested_run_replaces_credentials
  (ak sk st ak' sk' st' : string) (environ env : list string) (t t' : list event) :
  build_env (credentials_of ak sk st) environ t = (t, inl env) ->
  build_env (credentials_of ak' sk' st') env t'
    = build_env (credentials_of ak' sk' st') environ t' /\
  build_env (credentials_of ak' sk' st') env t'
    = (t', inl (env_init ak' sk' st' ++ kept environ)).
Proof.
  intros Hfirst. rewrite build_env_credentials in Hfirst.
  destruct (environ_valid_or_not environ) as [Hwf | Hbad].
  - rewrite range_Environ_ok in Hfirst by assumption.
    assert (Henv : env = env_init ak sk st ++ kept environ) by congruence.
    subst env. clear Hfirst.
    rewrite !build_env_credentials.
    rewrite (range_Environ_ok environ Hwf).
    rewrite range_Environ_ok.
    + rewrite kept_app, kept_env_init, kept_kept. now split.
    + apply Forall_app. split; [apply has_eq_env_init | now apply has_eq_kept].
  - rewrite range_Environ_invalid in Hfirst by assumption. discriminate.
Qed.

Lemma nested_run_replaces_credentials_witness :
  build_env (credentials_of "AKIA2" "secret2" "token2")
    [ "AWS_ACCESS_KEY_ID=AKIA"; "AWS_SECRET_ACCESS_KEY=secret";
      "AWS_SESSION_TOKEN=token"; "PATH=/bin"; "HOME=/root" ] []
    = build_env (credentials_of "AKIA2" "secret2" "token2")
        [ "PATH=/bin"; "AWS_ROLE_ARN=stale"; "HOME=/root" ] [] /\
  build_env (credentials_of "AKIA2" "secret2" "token2")
    [ "AWS_ACCESS_KEY_ID=AKIA"; "AWS_SECRET_ACCESS_KEY=secret";
      "AWS_SESSION_TOKEN=token"; "PATH=/bin"; "HOME=/root" ] []
    = ([], inl (env_init "AKIA2" "secret2" "token2"
                ++ kept [ "PATH=/bin"; "AWS_ROLE_ARN=stale"; "HOME=/root" ])).
Proof.
  apply (nested_run_replaces_credentials "AKIA" "secret" "token"
           "AKIA2" "secret2" "token2"
           [ "PATH=/bin"; "AWS_ROLE_ARN=stale"; "HOME=/root" ] _ [] []).
  reflexivity.
Defined.

(** ** The required request parameters *)

Lemma FormatInt_nonempty (i : Z) : strconv.FormatInt i <> EmptyString.
Proof.
  unfold strconv.FormatInt, NilZero.string_of_int, NilZero.string_of_uint.
  destruct (Z.to_int i) as [d | d]; [|discriminate].
  destruct d; discriminate.
Qed.

(** X4. Every request a run sends names the role and the session: RoleArn
    is the non-empty role ARN flag, RoleSessionName is present and
    non-empty, equal to the flag when it was given and to the decimal
    UnixNano timestamp otherwise. *)
Theorem request_names_role_and_session (w : World) (input : sts.AssumeRoleInput) :
  In (EvAssumeRole input) (trace w) ->
  roleArn w <> EmptyString /\
  sts.RoleArn input = Some (roleArn w) /\
  session_name w <> EmptyString /\
  sts.RoleSessionName input = Some (session_name w) /\
  (roleSessionName w <> EmptyString -> session_name w = roleSessionName w) /\
  (roleSessionName w = EmptyString ->
   session_name w = strconv.FormatInt (UnixNano w)).
Proof.
  intros Hin.
  assert (Harn : roleArn w <> EmptyString).
  { intros Harn. unfold trace, run in Hin.
    rewrite (main_role_missing w Harn) in Hin.
    destruct Hin as [Hin | []]. discriminate. }
  assert (Hname : session_name w <> EmptyString).
  { unfold session_name.
    destruct (String.eqb_spec (roleSessionName w) "") as [_ | Hne];
      [apply FormatInt_nonempty | assumption]. }
  apply trace_request in Hin. subst input.
  unfold request. cbn [sts.RoleArn sts.RoleSessionName]. rewrite !ptr_string.
  split; [assumption|]. split; [now destruct (roleArn w)|].
  split; [assumption|]. split; [now destruct (session_name w)|].
  unfold session_name.
  destruct (String.eqb_spec (roleSessionName w) "") as [Hempty | Hne];
    split; intros; congruence.
Qed.

Lemma request_names_role_and_session_witness :
  roleArn world_external_id <> EmptyString /\
  sts.RoleArn (request world_external_id (session_name world_external_id))
    = Some (roleArn world_external_id) /\
  session_name world_external_id <> EmptyString /\
  sts.RoleSessionName (request world_external_id (session_name world_external_id))
    = Some (session_name world_external_id) /\
  (roleSessionName world_external_id <> EmptyString ->
   session_name world_external_id = roleSessionName world_external_id) /\
  (roleSessionName world_external_id = EmptyString ->
   session_name world_external_id = strconv.FormatInt (UnixNano world_external_id)).
Proof.
  apply (request_names_role_and_session world_external_id
           (request world_external_id (session_name world_external_id))).
  right. left. reflexivity.
Defined.

(** ** Failures before the child runs *)

Lemma run_config_error (w : World) (err : error) :
  roleArn w <> EmptyString ->
  LoadDefaultConfig_err w = Some err ->
  run w = ([EvLoadDefaultConfig; EvLog (Err err)], 1).
Proof.
  intros Harn Hcfg. unfold run. rewrite main_stages by assumption.
  now rewrite Hcfg.
Qed.

(** X5. When the configuration cannot be loaded the run logs the error and
    exits with status 1 without sending a request or spawning a child. *)
Theorem config_error_is_fatal (w : World) (err : error) :
  roleArn w <> EmptyString ->
  LoadDefaultConfig_err w = Some err ->
  run w = ([EvLoadDefaultConfig; EvLog (Err err)], 1).
Proof. exact (run_config_error w err). Qed.

Lemma config_error_is_fatal_witness :
  run world_config_error
  = ([EvLoadDefaultConfig; EvLog (Err (errorString "failed to load config"))], 1).
Proof.
  apply (config_error_is_fatal world_config_error); [discriminate | reflexivity].
Defined.

Lemma run_assume_role_error (w : World) (err : error) :
  roleArn w <> EmptyString ->
  LoadDefaultConfig_err w = None ->
  AssumeRole w (request w (session_name w)) = inr err ->
  run w = ([EvLoadDefaultConfig;
            EvAssumeRole (request w (session_name w));
            EvLog (Err err)], 1).
Proof.
  intros Harn Hcfg Hrole. unfold run. rewrite main_stages by assumption.
  rewrite Hcfg. cbn zeta. now rewrite Hrole.
Qed.

(** X6. When the AssumeRole call fails the run logs the error and exits with
    status 1; the environment is not built and no child is spawned. *)
Theorem assume_role_error_is_fatal (w : World) (err : error) :
  roleArn w <> EmptyString ->
  LoadDefaultConfig_err w = None ->
  AssumeRole w (request w (session_name w)) = inr err ->
  run w = ([EvLoadDefaultConfig;
            EvAssumeRole (request w (session_name w));
            EvLog (Err err)], 1).
Proof. exact (run_assume_role_error w err). Qed.

Lemma assume_role_error_is_fatal_witness :
  run world_access_denied
  = ([EvLoadDefaultConfig;
      EvAssumeRole (request world_access_denied (session_name world_access_denied));
      EvLog (Err (errorString "AccessDenied"))], 1).
Proof.
  apply (assume_role_error_is_fatal world_access_denied);
    [discriminate | reflexivity | reflexivity].
Defined.

Lemma lacks_credentials_outcome (role : sts.AssumeRoleOutput) :
  if lacks_credentials role
  then forall environ t, build_env role environ t = (t ++ [EvPanic], inr 2)
  else exists ak sk st, role = credentials_of ak sk st.
Proof.
  destruct role as [[[[ak |] [sk |] [st |]] |]]; cbn; try reflexivity.
  now exists ak, sk, st.
Qed.

Lemma run_missing_credentials (w : World) (role : sts.AssumeRoleOutput) :
  reaches_build_env w role ->
  lacks_credentials role = true ->
  run w = ([EvLoadDefaultConfig;
            EvAssumeRole (request w (session_name w));
            EvPanic], 2).
Proof.
  intros Hreach Hlacks. unfold run.
  rewrite (main_reaches_build_env w role Hreach). unfold bind.
  pose proof (lacks_credentials_outcome role) as Hout.
  rewrite Hlacks in Hout. now rewrite Hout.
Qed.

(** X7. When the response lacks the credentials or one of their three
    strings, dereferencing it panics: the run ends with status 2 before the
    parent environment is looked at and before any child is spawned. *)
Theorem missing_credentials_panic (w : World) (role : sts.AssumeRoleOutput) :
  reaches_build_env w role ->
  lacks_credentials role = true ->
  run w = ([EvLoadDefaultConfig;
            EvAssumeRole (request w (session_name w));
            EvPanic], 2).
Proof. exact (run_missing_credentials w role). Qed.

Lemma missing_credentials_panic_witness :
  run world_no_session_token
  = ([EvLoadDefaultConfig;
      EvAssumeRole (request world_no_session_token
                      (session_name world_no_session_token));
      EvPanic], 2).
Proof.
  apply (missing_credentials_panic world_no_session_token
           {| sts.Credentials :=
                Some {| types.AccessKeyId := Some "AKIA";
                        types.SecretAccessKey := Some "secret";
                        types.SessionToken := None |} |}).
  - repeat split; discriminate.
  - reflexivity.
Defined.

(** X8. When the child cannot be started or waited for, the run logs that
    error after the spawn attempt and exits with status 1. *)
Theorem child_failure_is_fatal
  (w : World) (ak sk st name : string) (arg : list string) (msg : string) :
  reaches_build_env w (credentials_of ak sk st) ->
  Forall (fun e => has_eq e = true) (os_Environ w) ->
  flag_Args w = name :: arg ->
  child w (command name arg (env_init ak sk st ++ kept (os_Environ w)))
    = exec.Failed msg ->
  run w = ([EvLoadDefaultConfig;
            EvAssumeRole (request w (session_name w));
            EvRun (command name arg (env_init ak sk st ++ kept (os_Environ w)));
            EvLog (Err (errorString msg))], 1).
Proof.
  intros Hreach Hwf Hargs Hchild. unfold run.
  rewrite (main_reaches_build_env w _ Hreach). unfold bind.
  rewrite build_env_credentials, range_Environ_ok by assumption.
  rewrite (run_command_args w _ _ name arg) by assumption.
  now rewrite Hchild.
Qed.

Lemma child_failure_is_fatal_witness :
  run world_child_not_found
  = ([EvLoadDefaultConfig;
      EvAssumeRole (request world_child_not_found
                      (session_name world_child_not_found));
      EvRun (command "no-such-command" []
               (env_init "AKIA" "secret" "token"
                ++ kept (os_Environ world_child_not_found)));
      EvLog (Err (errorString "executable file not found in $PATH"))], 1).
Proof.
  apply (child_failure_is_fatal world_child_not_found
           "AKIA" "secret" "token" "no-such-command" []
           "executable file not found in $PATH").
  - repeat split; discriminate.
  - repeat constructor.
  - reflexivity.
  - reflexivity.
Defined.

(** ** Every run, case by case *)

Lemma run_outcomes (w : World) :
  (roleArn w = EmptyString /\
   run w = ([EvLog (Text "role-arn is required")], 1)) \/
  (exists err,
      run w = ([EvLoadDefaultConfig; EvLog (Err err)], 1)) \/
  (exists err,
      run w = ([EvLoadDefaultConfig;
                EvAssumeRole (request w (session_name w));
                EvLog (Err err)], 1)) \/
  (run w = ([EvLoadDefaultConfig;
             EvAssumeRole (request w (session_name w));
             EvPanic], 2)) \/
  (run w = ([EvLoadDefaultConfig;
             EvAssumeRole (request w (session_name w));
             EvLog (Text "invalid environ")], 1)) \/
  (exists ak sk st,
      reaches_build_env w (credentials_of ak sk st) /\
      Forall (fun e => has_eq e = true) (os_Environ w) /\
      flag_Args w = [] /\
      run w = ([EvLoadDefaultConfig;
                EvAssumeRole (request w (session_name w));
                EvLog (Text "no commands")], 0)) \/
  (exists ak sk st name arg,
      reaches_build_env w (credentials_of ak sk st) /\
      Forall (fun e => has_eq e = true) (os_Environ w) /\
      flag_Args w = name :: arg /\
      run w =
        match exec.Run_error
                (child w (command name arg
                            (env_init ak sk st ++ kept (os_Environ w)))) with
        | None =>
            ([EvLoadDefaultConfig;
              EvAssumeRole (request w (session_name w));
              EvRun (command name arg (env_init ak sk st ++ kept (os_Environ w)))],
             0)
        | Some err =>
            ([EvLoadDefaultConfig;
              EvAssumeRole (request w (session_name w));
              EvRun (command name arg (env_init ak sk st ++ kept (os_Environ w)));
              EvLog (Err err)], 1)
        end).
Proof.
  destruct (String.eqb_spec (roleArn w) "") as [Harn | Harn].
  { left. split; [assumption|]. unfold run. now rewrite main_role_missing. }
  right.
  destruct (LoadDefaultConfig_err w) as [err |] eqn:Hcfg.
  { left. exists err. now apply run_config_error. }
  right.
  destruct (AssumeRole w (request w (session_name w))) as [role | err] eqn:Hrole.
  2:{ left. exists err. now apply run_assume_role_error. }
  right.
  assert (Hreach : reaches_build_env w role) by now repeat split.
  pose proof (lacks_credentials_outcome role) as Hout.
  destruct (lacks_credentials role) eqn:Hlacks.
  { left. now apply (run_missing_credentials w role). }
  right. destruct Hout as (ak & sk & st & ->).
  unfold run. rewrite (main_reaches_build_env w _ Hreach). unfold bind.
  rewrite build_env_credentials.
  destruct (environ_valid_or_not (os_Environ w)) as [Hwf | Hbad].
  2:{ left. now rewrite range_Environ_invalid. }
  right. rewrite range_Environ_ok by assumption.
  destruct (flag_Args w) as [| name arg] eqn:Hargs.
  { left. exists ak, sk, st. rewrite run_command_no_args by assumption.
    now repeat split. }
  right. exists ak, sk, st, name, arg.
  rewrite (run_command_args w _ _ name arg) by assumption.
  repeat split; try assumption.
  now destruct (exec.Run_error _).
Qed.

Lemma Run_error_nil (c : exec.Child) :
  exec.Run_error c = None <-> c = exec.Exited 0.
Proof.
  destruct c as [code | msg]; cbn.
  - destruct (Z.eqb_spec code 0) as [-> | Hne]; split; intros H;
      try reflexivity; try discriminate. congruence.
  - split; discriminate.
Qed.

(** ** [os.Environ()] *)

Lemma seen_In (env : list (string * nat)) (k : string) :
  syscall.seen env k = true <-> In k (map fst env).
Proof.
  unfold syscall.seen. rewrite existsb_exists, in_map_iff. split.
  - intros ([k' i] & Hin & Heq). apply String.eqb_eq in Heq. cbn in Heq.
    subst k'. now exists (k, i).
  - intros ([k' i] & Heq & Hin). cbn in Heq. subst k'.
    exists (k, i). split; [assumption | apply String.eqb_refl].
Qed.

(** After [copyenv], the entries that contain ['='] have pairwise-distinct
    keys, none of which was in the map before. *)
Lemma copyenv_keys (envs : list string) :
  forall (i : nat) (env : list (string * nat)),
    let out := filter has_eq (snd (syscall.copyenv i env envs)) in
    NoDup (map key out) /\
    (forall k, In k (map key out) -> ~ In k (map fst env)).
Proof.
  induction envs as [| s rest IH]; intros i env; cbn zeta.
  - cbn. split; [constructor | intros k []].
  - cbn [syscall.copyenv].
    pose proof (Cut_found s) as Hfound.
    assert (Hkey : fst (fst (strings.Cut s "=")) = key s) by reflexivity.
    destruct (strings.Cut s "=") as [[k v] found]. cbn in Hfound, Hkey.
    subst found k. destruct (has_eq s) eqn:Hs.
    + destruct (syscall.seen env (key s)) eqn:Hseen.
      * specialize (IH (S i) env).
        destruct (syscall.copyenv (S i) env rest) as [env' rest'].
        cbn [snd filter] in *. exact IH.
      * specialize (IH (S i) ((key s, i) :: env)).
        destruct (syscall.copyenv (S i) ((key s, i) :: env) rest) as [env' rest'].
        cbn [snd filter map fst] in *. rewrite Hs. cbn [map].
        destruct IH as [Hnd Hfresh]. split.
        -- constructor; [|assumption].
           intros Hin. apply (Hfresh (key s) Hin). now left.
        -- intros k' [<- | Hin].
           ++ intros Hin. apply seen_In in Hin. congruence.
           ++ intros Hin'. apply (Hfresh k' Hin). now right.
    + specialize (IH (S i) env).
      destruct (syscall.copyenv (S i) env rest) as [env' rest'].
      cbn [snd filter] in *. rewrite Hs. exact IH.
Qed.

(** When every entry that is not empty contains ['='], dropping the empty
    entries and keeping the entries with ['='] are the same. *)
Lemma nonempty_entries_have_eq (out : list string) :
  Forall (fun e => has_eq e = true)
         (filter (fun s => negb (String.eqb s EmptyString)) out) ->
  filter (fun s => negb (String.eqb s EmptyString)) out = filter has_eq out.
Proof.
  induction out as [| s out IH]; intros Hwf; [reflexivity|].
  cbn [filter] in *. destruct (String.eqb_spec s "") as [-> | Hne]; cbn [negb] in *.
  - change (has_eq "") with false. now apply IH.
  - apply Forall_cons_iff in Hwf as [Hs Hwf]. rewrite Hs. f_equal. now apply IH.
Qed.

(** The entries [os.Environ()] returns have pairwise-distinct keys when
    each of them contains ['=']. *)
Lemma Environ_keys_distinct (envs : list string) :
  Forall (fun e => has_eq e = true) (syscall.Environ envs) ->
  NoDup (map key (syscall.Environ envs)).
Proof.
  intros Hwf. unfold syscall.Environ in *.
  rewrite nonempty_entries_have_eq by assumption.
  apply (copyenv_keys envs 0 []).
Qed.

(** C3. The parent environment is what [os.Environ()] returns.  When each
    of its entries contains ['='], the environment is built and no key
    appears in more than one of its entries; and in every run that gets its
    parent environment from [os.Environ()], a child that is run has an
    environment with pairwise-distinct keys. *)
Theorem child_env_keys_unique
  (ak sk st : string) (envs : list string) (t : list event) :
  Forall (fun e => has_eq e = true) (syscall.Environ envs) ->
  (exists env,
      build_env (credentials_of ak sk st) (syscall.Environ envs) t = (t, inl env) /\
      NoDup (map key env)) /\
  (forall w cmd,
      os_Environ w = syscall.Environ envs ->
      In (EvRun cmd) (trace w) ->
      NoDup (map key (exec.Env cmd))).
Proof.
  intros Hwf. split.
  - exists (env_init ak sk st ++ kept (syscall.Environ envs)). split.
    + rewrite build_env_credentials. now apply range_Environ_ok.
    + apply build_env_keys_distinct. now apply Environ_keys_distinct.
  - intros w cmd Henv Hin. unfold trace in Hin.
    destruct (run_outcomes w)
      as [[_ Hr] | [[err Hr] | [[err Hr] | [Hr | [Hr |
          [(ak' & sk' & st' & _ & _ & _ & Hr) |
           (ak' & sk' & st' & name & arg & _ & _ & _ & Hr)]]]]]];
      rewrite Hr in Hin; clear Hr;
      try (destruct (exec.Run_error _) as [err |]);
      cbn [fst In] in Hin;
      repeat (destruct Hin as [Hin | Hin]; try discriminate Hin);
      try contradiction;
      injection Hin as <-; cbn [command exec.set_Env exec.Env];
      rewrite Henv; apply build_env_keys_distinct;
      now apply Environ_keys_distinct.
Qed.

Lemma child_env_keys_unique_witness :
  (exists env,
      build_env (credentials_of "AKIA" "secret" "token")
        (syscall.Environ ["A=1"; "PATH=/bin"; "A=2"; ""; "AWS_ROLE_ARN=x"]) []
        = ([], inl env) /\
      NoDup (map key env)) /\
  (forall w cmd,
      os_Environ w
        = syscall.Environ ["A=1"; "PATH=/bin"; "A=2"; ""; "AWS_ROLE_ARN=x"] ->
      In (EvRun cmd) (trace w) ->
      NoDup (map key (exec.Env cmd))).
Proof.
  apply (child_env_keys_unique "AKIA" "secret" "token"
           ["A=1"; "PATH=/bin"; "A=2"; ""; "AWS_ROLE_ARN=x"] []).
  repeat constructor.
Defined.

(** For instance: later entries of a key and empty entries are gone, an
    entry without ['='] stays. *)
Example Environ_example :
  syscall.Environ ["A=1"; "PATH=/bin"; "A=2"; ""; "AWS_ROLE_ARN=x"; "junk"; "=x"; "=y"]
  = ["A=1"; "PATH=/bin"; "AWS_ROLE_ARN=x"; "junk"; "=x"].
Proof. reflexivity. Qed.

(** ** What a run as a whole does *)

(** X9. A child is spawned only in a run in which the role ARN was set, the
    configuration loaded, the service returned all three credentials and
    every parent entry contains ['=']; the run spawns exactly one child,
    right after the request, with arguments [flag.Args()] and environment
    the built one. *)
Theorem child_runs_only_with_credentials (w : World) :
  spawned (trace w) = true ->
  exists ak sk st name arg rest,
    reaches_build_env w (credentials_of ak sk st) /\
    Forall (fun e => has_eq e = true) (os_Environ w) /\
    flag_Args w = name :: arg /\
    trace w = [EvLoadDefaultConfig;
               EvAssumeRole (request w (session_name w));
               EvRun (command name arg (env_init ak sk st ++ kept (os_Environ w)))]
              ++ rest /\
    spawned rest = false /\
    exec.Args (command name arg (env_init ak sk st ++ kept (os_Environ w)))
      = flag_Args w /\
    exec.Env (command name arg (env_init ak sk st ++ kept (os_Environ w)))
      = env_init ak sk st ++ kept (os_Environ w).
Proof.
  unfold trace. intros Hsp.
  destruct (run_outcomes w)
    as [[_ Hr] | [[err Hr] | [[err Hr] | [Hr | [Hr |
        [(ak & sk & st & _ & _ & _ & Hr) |
         (ak & sk & st & name & arg & Hreach & Hwf & Hargs & Hr)]]]]]];
    rewrite Hr in Hsp |- *; try discriminate.
  destruct (exec.Run_error _) as [err |];
    [exists ak, sk, st, name, arg, [EvLog (Err err)]
    | exists ak, sk, st, name, arg, []];
    (split; [exact Hreach|]); (split; [exact Hwf|]); (split; [exact Hargs|]);
    rewrite Hargs; now repeat split.
Qed.

Lemma child_runs_only_with_credentials_witness :
  exists ak sk st name arg rest,
    reaches_build_env world_success (credentials_of ak sk st) /\
    Forall (fun e => has_eq e = true) (os_Environ world_success) /\
    flag_Args world_success = name :: arg /\
    trace world_success
      = [EvLoadDefaultConfig;
         EvAssumeRole (request world_success (session_name world_success));
         EvRun (command name arg
                  (env_init ak sk st ++ kept (os_Environ world_success)))]
        ++ rest /\
    spawned rest = false /\
    exec.Args (command name arg
                 (env_init ak sk st ++ kept (os_Environ world_success)))
      = flag_Args world_success /\
    exec.Env (command name arg
                (env_init ak sk st ++ kept (os_Environ world_success)))
      = env_init ak sk st ++ kept (os_Environ world_success).
Proof.
  apply (child_runs_only_with_credentials world_success).
  unfold trace, run.
  rewrite (main_reaches_build_env world_success
             (credentials_of "AKIA" "secret" "token"))
    by (repeat split; discriminate).
  reflexivity.
Defined.

(** X10. In a run in which [flag.Parse()] returned, the exit status is 0
    exactly when the run reached the environment stage with all three
    credentials, every parent entry contains ['='], and either no command
    was given or the child exited with status 0. *)
Theorem exit_status_zero_iff (w : World) :
  exit_status w = 0 <->
  exists ak sk st,
    reaches_build_env w (credentials_of ak sk st) /\
    Forall (fun e => has_eq e = true) (os_Environ w) /\
    (flag_Args w = [] \/
     exists name arg,
       flag_Args w = name :: arg /\
       child w (command name arg (env_init ak sk st ++ kept (os_Environ w)))
         = exec.Exited 0).
Proof.
  unfold exit_status. split.
  - intros Hzero.
    destruct (run_outcomes w)
      as [[_ Hr] | [[err Hr] | [[err Hr] | [Hr | [Hr |
          [(ak & sk & st & Hreach & Hwf & Hargs & Hr) |
           (ak & sk & st & name & arg & Hreach & Hwf & Hargs & Hr)]]]]]];
      rewrite Hr in Hzero; try discriminate.
    + exists ak, sk, st. repeat split; try assumption; try apply Hreach. now left.
    + exists ak, sk, st. split; [assumption|]. split; [assumption|].
      right. exists name, arg. split; [assumption|].
      apply Run_error_nil. now destruct (exec.Run_error _).
  - intros (ak & sk & st & Hreach & Hwf & Hend). unfold run.
    rewrite (main_reaches_build_env w _ Hreach). unfold bind.
    rewrite build_env_credentials, range_Environ_ok by assumption.
    destruct Hend as [Hargs | (name & arg & Hargs & Hchild)].
    + now rewrite run_command_no_args.
    + rewrite (run_command_args w _ _ name arg) by assumption.
      now rewrite Hchild.
Qed.

(** X11. In a run in which [flag.Parse()] returned, the exit status is 0, 1
    or 2; it is 2 exactly when the run panicked, and a run that exits with
    status 1 ends with a log line. *)
Theorem exit_status_and_diagnostic (w : World) :
  (exit_status w = 0 \/ exit_status w = 1 \/ exit_status w = 2) /\
  (exit_status w = 2 <-> existsb is_EvPanic (trace w) = true) /\
  (exit_status w = 1 -> exists t v, trace w = t ++ [EvLog v]).
Proof.
  unfold exit_status, trace.
  destruct (run_outcomes w)
    as [[_ Hr] | [[err Hr] | [[err Hr] | [Hr | [Hr |
        [(ak & sk & st & _ & _ & _ & Hr) |
         (ak & sk & st & name & arg & _ & _ & _ & Hr)]]]]]];
    rewrite Hr; clear Hr;
    try (destruct (exec.Run_error _) as [err |]);
    cbn [fst snd existsb is_EvPanic orb];
    (split; [auto | split; [split; intros H; try discriminate; reflexivity |]]);
    intros H; try discriminate.
  - now exists [], (Text "role-arn is required").
  - now exists [EvLoadDefaultConfig], (Err err).
  - now eexists [_; _], (Err err).
  - now eexists [_; _], (Text "invalid environ").
  - now eexists [_; _; _], (Err err).
Qed.

(** ** Whole numbers of seconds *)

(** The integer part of [float64(n)] is [n] whenever [|n| < 2^53]. *)
Lemma truncate_int (s : bool) (p : positive) :
  Zpos p < 2 ^ 53 ->
  float.truncate (binary_round float.prec float.emax s p 0)
  = Some (cond_Zopp s (Zpos p)).
Proof.
  intros Hp.
  destruct (binary_round_int s p Hp) as (m & e & -> & He & Hm & _).
  cbn [float.truncate]. do 2 f_equal.
  destruct (Z.leb_spec 0 e) as [Hpos | Hneg].
  - assert (e = 0) by lia. subst e. rewrite Hm. cbn [Z.opp Z.pow Z.pow_pos]. lia.
  - rewrite Hm. apply Z.div_mul.
    assert (0 < 2 ^ (- e)) by (apply pow2_pos; lia). lia.
Qed.

Lemma Seconds_whole (s : bool) (p : positive) :
  Zpos p < 2 ^ 53 ->
  float.truncate (time.Seconds (cond_Zopp s (Zpos p * time.Second)))
  = Some (cond_Zopp s (Zpos p)).
Proof.
  intros Hp. unfold time.Seconds, time.Second, time.Nanosecond.
  rewrite Z.mul_1_r.
  assert (Hquot : Z.quot (cond_Zopp s (Zpos p * 1000000000)) 1000000000
                  = cond_Zopp s (Zpos p)).
  { destruct s; cbn [cond_Zopp].
    - rewrite Z.quot_opp_l, Z.quot_mul by lia. reflexivity.
    - apply Z.quot_mul; lia. }
  assert (Hrem : Z.rem (cond_Zopp s (Zpos p * 1000000000)) 1000000000 = 0).
  { destruct s; cbn [cond_Zopp].
    - rewrite Z.rem_opp_l, Z.rem_mul by lia. reflexivity.
    - apply Z.rem_mul; lia. }
  rewrite Hquot, Hrem, of_int_signed, of_int_billion.
  replace (float.div (float.of_int 0) (S754_finite false billion (-23)))
    with (S754_zero false) by reflexivity.
  pose proof (truncate_int s p Hp) as Htr.
  destruct (binary_round_int s p Hp) as (m & e & Hbr & _).
  rewrite Hbr in *. exact Htr.
Qed.

(** X12. A duration of a whole number of seconds [n] that fits an int32 is
    sent exactly: DurationSeconds is [ptr n], over the whole int32 range. *)
Theorem whole_seconds_sent_exactly
  (w : World) (input : sts.AssumeRoleInput) (n : Z) :
  In (EvAssumeRole input) (trace w) ->
  duration w = n * time.Second ->
  in_int32 n = true ->
  sts.DurationSeconds input = ptr n.
Proof.
  intros Hin Hd Hn. apply trace_request in Hin. subst input.
  unfold request. cbn [sts.DurationSeconds]. rewrite Hd. f_equal.
  pose proof Hn as Hrange. unfold in_int32, int32_min, int32_max in Hrange.
  apply andb_true_iff in Hrange as [Hlo Hhi].
  apply Z.leb_le in Hlo, Hhi. change (2 ^ 31) with 2147483648 in Hlo, Hhi.
  unfold float.to_int32.
  assert (Htr : float.truncate (time.Seconds (n * time.Second)) = Some n).
  { destruct n as [| p | p].
    - reflexivity.
    - apply (Seconds_whole false p). change (2 ^ 53) with 9007199254740992. lia.
    - change (Zneg p * time.Second) with (cond_Zopp true (Zpos p * time.Second)).
      apply (Seconds_whole true p). change (2 ^ 53) with 9007199254740992. lia. }
  now rewrite Htr, Hn.
Qed.

Lemma whole_seconds_sent_exactly_witness :
  sts.DurationSeconds (request world_success (session_name world_success))
  = ptr 900.
Proof.
  apply (whole_seconds_sent_exactly world_success
           (request world_success (session_name world_success)) 900).
  - right. left. reflexivity.
  - reflexivity.
  - reflexivity.
Defined.

(** X13. Nothing is retried and nothing happens out of order: a run loads
    the configuration at most once, sends at most one request and spawns at
    most one child; every request in the trace has a load before it and
    every spawn has a request before it. *)
Theorem nothing_is_retried_in_order (w : World) :
  (count_events is_EvLoadDefaultConfig (trace w) <= 1)%nat /\
  (count_events is_EvAssumeRole (trace w) <= 1)%nat /\
  (count_events is_EvRun (trace w) <= 1)%nat /\
  (forall before e after,
      trace w = before ++ e :: after ->
      is_EvAssumeRole e = true ->
      existsb is_EvLoadDefaultConfig before = true) /\
  (forall before e after,
      trace w = before ++ e :: after ->
      is_EvRun e = true ->
      existsb is_EvAssumeRole before = true).
Proof.
  unfold trace, count_events.
  destruct (run_outcomes w)
    as [[_ Hr] | [[err Hr] | [[err Hr] | [Hr | [Hr |
        [(ak & sk & st & _ & _ & _ & Hr) |
         (ak & sk & st & name & arg & _ & _ & _ & Hr)]]]]]];
    rewrite Hr; clear Hr;
    try (destruct (exec.Run_error _) as [err |]);
    cbn [fst filter is_EvLoadDefaultConfig is_EvAssumeRole is_EvRun List.length];
    (split; [lia|]); (split; [lia|]); (split; [lia|]);
    split; intros before e after Heq He;
    destruct before as [| e1 [| e2 [| e3 [| e4 [| e5 before]]]]];
    cbn [app] in Heq; try discriminate Heq;
    injection Heq; intros; subst; try discriminate He; try reflexivity;
    try (destruct before; discriminate).
Qed.
